(** * IDDCareBot: the retrieval-and-answer pipeline of [llm_server.py]

    A shallow embedding of the chat backend of the repository
    ([safety.py], [prompts.py], [llm_server.py], the legacy [server.py] and
    the embedding step of [ingest.py]) together with the properties the
    specification states about it.

    Conventions of the model.
    - A Python [str] is a [string]: the UTF-8 bytes of the text.  Substring
      and prefix tests on UTF-8 bytes agree with the tests on code points.
      [lower] maps the ASCII letters and [strip] removes the ASCII white
      space of [str.isspace]; bytes of other code points are left as they
      are.
    - A Python [float] is a real number.
    - The sentence encoder, the FAISS index, the HTTP client and the Ollama
      runtime are libraries outside the repository: they are fields of the
      environment [Env], and every call to one of them is recorded in the
      trace of the computation. *)

From Stdlib Require Import String Ascii List Bool ZArith NArith Lia.
From Stdlib Require Import Reals Lra.
Import ListNotations.

Open Scope string_scope.

(* ================================================================== *)
(** ** Python strings *)
(* ================================================================== *)

Module PyStr.

(** The line feed, written [\n] in the source. *)
Definition nl : string := String (ascii_of_nat 10) EmptyString.

(** [c.lower()] on one ASCII character: [A]..[Z] move to [a]..[z]. *)
Definition lower_char (c : ascii) : ascii :=
  let n := nat_of_ascii c in
  if andb (Nat.leb 65 n) (Nat.leb n 90) then ascii_of_nat (n + 32) else c.

(** [s.lower()] *)
Fixpoint lower (s : string) : string :=
  match s with
  | EmptyString => EmptyString
  | String c r => String (lower_char c) (lower r)
  end.

(** [c.isspace()] for one ASCII character: tab, line feed, vertical tab,
    form feed, carriage return, the four separators 0x1c..0x1f, space. *)
Definition is_space (c : ascii) : bool :=
  let n := nat_of_ascii c in
  orb (andb (Nat.leb 9 n) (Nat.leb n 13))
      (orb (andb (Nat.leb 28 n) (Nat.leb n 31)) (Nat.eqb n 32)).

(** [s.lstrip()] *)
Fixpoint lstrip (s : string) : string :=
  match s with
  | EmptyString => EmptyString
  | String c r => if is_space c then lstrip r else s
  end.

(** [s.rstrip()]: a character is dropped when it is white space and
    everything after it was dropped. *)
Fixpoint rstrip (s : string) : string :=
  match s with
  | EmptyString => EmptyString
  | String c r =>
      match rstrip r with
      | EmptyString => if is_space c then EmptyString else String c EmptyString
      | r' => String c r'
      end
  end.

(** [s.strip()] *)
Definition strip (s : string) : string := rstrip (lstrip s).

(** [s.startswith(p)] *)
Fixpoint startswith (s p : string) {struct p} : bool :=
  match p, s with
  | EmptyString, _ => true
  | String _ _, EmptyString => false
  | String a p', String b s' => andb (Ascii.eqb a b) (startswith s' p')
  end.

(** [p in s] *)
Fixpoint contains (p s : string) : bool :=
  orb (startswith s p)
      (match s with
       | EmptyString => false
       | String _ r => contains p r
       end).

(** [any(f(x) for x in xs)] *)
Definition any {A : Type} (f : A -> bool) (xs : list A) : bool := existsb f xs.

(** [sep.join(xs)] *)
Fixpoint join (sep : string) (xs : list string) : string :=
  match xs with
  | [] => EmptyString
  | [x] => x
  | x :: rest => x ++ sep ++ join sep rest
  end.

(** Python truthiness of an optional string: [None] and [""] are false. *)
Definition truthy (o : option string) : bool :=
  match o with
  | None => false
  | Some EmptyString => false
  | Some (String _ _) => true
  end.

(** The mathematical readings of the two tests. *)
Definition is_prefix (p s : string) : Prop := exists b, s = p ++ b.
Definition is_substring (p s : string) : Prop := exists a b, s = a ++ p ++ b.

End PyStr.

Import PyStr.

(* ================================================================== *)
(** ** The data model *)
(* ================================================================== *)

(** One row of [meta.json]: the dictionary written by [ingest.py], read
    with [dict.get].  A field is [None] when the key is absent. *)
Record ChunkRecord := {
  title : option string;
  authors : option string;
  abstract : option string;
  source_file : option string;
  chunk_id : option Z;
  year : option string;
  url : option string
}.

(** [d.get(key, default)] on an optional field. *)
Definition get_or {A : Type} (field : option A) (default : A) : A :=
  match field with
  | Some v => v
  | None => default
  end.

(** An embedding vector and a retrieval hit, the dictionary with the keys
    [score], [text] and [meta] built by [retrieve]. *)
Definition vector := list R.

Record Hit := {
  score : R;
  text : string;
  hit_meta : ChunkRecord
}.

Record Citation := {
  c_title : option string;
  c_authors : option string;
  c_year : option string;
  c_url : option string;
  c_source_file : option string;
  c_chunk_id : option Z;
  c_score : R
}.

Record ChatRequest := { query : string }.

Record ChatResponse := {
  answer : string;
  citations : list Citation
}.

Inductive Role := system | user | assistant.

Record Message := {
  role : Role;
  content : string
}.

(* ================================================================== *)
(** ** [safety.py] *)
(* ================================================================== *)

Definition RED_FLAGS : list string :=
  [ "seizure";
    "blue lips";
    "unconscious";
    "severe chest pain";
    "difficulty breathing";
    "trouble breathing";
    "not responsive";
    "stopped breathing";
    "choking";
    "head injury";
    "severe bleeding";
    "suicidal";
    "ingested poison";
    "allergic reaction" ].

Definition CRISIS_MSG : string :=
  "This may be an emergency. I’m not a medical professional, but based on what you shared, "
  ++ "please contact local emergency services immediately or your child’s clinician.".

Definition NON_DIAGNOSTIC_PREFACE : string :=
  "I can provide general, caregiver-friendly information about Down syndrome and IDD. "
  ++ "I can’t diagnose, prescribe, or replace professional care.".

(** The [for rf in RED_FLAGS] loop with its early [return]. *)
Fixpoint scan_red_flags (flags : list string) (t : string) : bool * string :=
  match flags with
  | [] => (false, EmptyString)
  | rf :: rest => if contains rf t then (true, CRISIS_MSG) else scan_red_flags rest t
  end.

(** The argument is a [str] (the [query] field of a validated request),
    for which [text or ""] is [text]. *)
Definition check_red_flags (text : string) : bool * string :=
  let t := lower text in
  scan_red_flags RED_FLAGS t.

(* ================================================================== *)
(** ** [llm_server.py]: the smalltalk matcher *)
(* ================================================================== *)

Definition greetings : list string :=
  [ "hi"; "hello"; "hey"; "good morning"; "good evening" ].
Definition gratitude : list string := [ "thanks"; "thank you"; "thx" ].
Definition farewell : list string := [ "bye"; "goodbye"; "see you"; "take care" ].
Definition how_are_you : list string :=
  [ "how are you"; "how’s it going"; "how are u" ].
Definition capabilities : list string :=
  [ "what can you do";
    "how can you help";
    "who are you";
    "what are you";
    "what is your role";
    "help";
    "i need help";
    "support";
    "assist me" ].

Definition GREETING_ANSWER : string :=
  "👋 Hi there! I’m glad you reached out. How can I support you today?".
Definition GRATITUDE_ANSWER : string :=
  "💜 You’re very welcome. Caring for a child with IDD is a big job—you’re doing great.".
Definition FAREWELL_ANSWER : string :=
  "👋 Take care! Remember, you can come back anytime with questions or just to talk.".
Definition HOW_ARE_YOU_ANSWER : string :=
  "😊 Thanks for asking! I’m here and ready to help with anything about caregiving or resources.".
Definition CAPABILITIES_ANSWER : string :=
  "🤖 I’m **IDDCareBot**, here to support caregivers of children with Down Syndrome and other intellectual or "
  ++ "developmental disabilities (IDD). I can:" ++ nl
  ++ "- Share caregiver-friendly tips and strategies (not medical advice)." ++ nl
  ++ "- Explain information from research in plain language." ++ nl
  ++ "- Suggest resources you can discuss with your child’s providers." ++ nl ++ nl
  ++ "How can I help you today?".

(** [handle_smalltalk] returns [None] or a dictionary with the keys
    [answer] and [citations]; [chat] turns the dictionary into a
    [ChatResponse] field by field, so the model builds that record. *)
Definition handle_smalltalk (user_input : string) : option ChatResponse :=
  let text := strip (lower user_input) in
  if any (fun g => startswith text g) greetings then
    Some {| answer := GREETING_ANSWER; citations := [] |}
  else if any (fun g => contains g text) gratitude then
    Some {| answer := GRATITUDE_ANSWER; citations := [] |}
  else if any (fun g => startswith text g) farewell then
    Some {| answer := FAREWELL_ANSWER; citations := [] |}
  else if any (fun g => contains g text) how_are_you then
    Some {| answer := HOW_ARE_YOU_ANSWER; citations := [] |}
  else if any (fun g => orb (String.eqb text g) (contains g text)) capabilities then
    Some {| answer := CAPABILITIES_ANSWER; citations := [] |}
  else None.

(* ================================================================== *)
(** ** [prompts.py] *)
(* ================================================================== *)

Definition SYSTEM_PROMPT : string :=
  "You are IDDCareBot, a supportive assistant for caregivers of children with Down Syndrome and other intellectual/"
  ++ "developmental disabilities (IDD). You provide clear, non-judgmental education, tips, and resources in plain language. "
  ++ "You do not give medical diagnoses. You encourage consulting qualified clinicians." ++ nl ++ nl
  ++ "When you answer, FIRST check the provided context passages. "
  ++ "Prefer direct quotes or paraphrases grounded in the context. "
  ++ "If context is insufficient, say so and suggest specific follow-ups (e.g., ask a provider, or request more details)." ++ nl ++ nl
  ++ "Citations: After the answer, list sources as bullet points with Title – Authors (Year). "
  ++ "Include DOI or PubMed ID links if you are certain they are correct. "
  ++ "If no reliable DOI or PubMed link is available, provide the citation without a URL. "
  ++ "Do NOT generate or guess URLs.".

Definition FEWSHOT : list Message :=
  [ {| role := user;
       content := "My child has trouble focusing during therapy. Any tips?" |};
    {| role := assistant;
       content :=
         "Here are some caregiver-friendly ideas you might consider (these are general tips, not medical advice):" ++ nl
         ++ "• Keep sessions short and consistent; build routine." ++ nl
         ++ "• Use visual schedules and break tasks into steps." ++ nl
         ++ "• Offer choices and positive reinforcement." ++ nl
         ++ "• Minimize distractions (noise, clutter)." ++ nl ++ nl
         ++ "If focus remains challenging, discuss options with your child’s therapist or pediatrician." ++ nl ++ nl
         ++ "**Sources**:" ++ nl ++ "• Therapy engagement in IDD – Author et al. (2020)" |};
    {| role := user;
       content := "Sometimes my child refuses to eat new foods. What can I do?" |};
    {| role := assistant;
       content :=
         "Feeding challenges are very common. Some general ideas you can try:" ++ nl
         ++ "• Introduce new foods slowly, alongside familiar favorites." ++ nl
         ++ "• Make mealtimes relaxed, not stressful." ++ nl
         ++ "• Offer small portions and let your child explore the food first (touch, smell)." ++ nl
         ++ "• Use positive reinforcement when your child tries something new." ++ nl ++ nl
         ++ "If your child is losing weight or seems limited to very few foods, please consult a pediatrician or feeding specialist." ++ nl ++ nl
         ++ "**Sources**:" ++ nl ++ "• Feeding problems in children with Down Syndrome – Field et al. (2003)" ++ nl
         ++ "• Pediatric feeding disorders – Silverman & Tarbell (2009)" |};
    {| role := user;
       content := "My child gets very frustrated when routines change. How can I help?" |};
    {| role := assistant;
       content :=
         "Many children with IDD find comfort in routines. To ease transitions:" ++ nl
         ++ "• Use visual schedules or calendars to show upcoming changes." ++ nl
         ++ "• Give plenty of warning before a transition." ++ nl
         ++ "• Practice small changes gradually." ++ nl
         ++ "• Offer comfort items (toys, music) during transitions." ++ nl ++ nl
         ++ "If meltdowns are frequent or severe, talk with your child’s behavioral therapist for tailored strategies." ++ nl ++ nl
         ++ "**Sources**:" ++ nl
         ++ "• Transition supports for children with developmental disabilities – Dettmer et al. (2000)" |};
    {| role := user;
       content := "My child has trouble sleeping through the night. Any suggestions?" |};
    {| role := assistant;
       content :=
         "Sleep difficulties are common in children with Down Syndrome. Helpful ideas include:" ++ nl
         ++ "• Keep a consistent bedtime routine." ++ nl
         ++ "• Limit screens and caffeine before bed." ++ nl
         ++ "• Make the bedroom calm, dark, and quiet." ++ nl
         ++ "• Use a bedtime ritual (story, soft music, dim lights)." ++ nl ++ nl
         ++ "If sleep problems continue, ask your pediatrician to check for medical issues (such as sleep apnea, which is more common in Down Syndrome)." ++ nl ++ nl
         ++ "**Sources**:" ++ nl ++ "• Sleep disorders in Down Syndrome – Breslin et al. (2014)" |};
    {| role := user;
       content := "How can I encourage my child to communicate more?" |};
    {| role := assistant;
       content :=
         "Encouraging communication can be done in everyday ways:" ++ nl
         ++ "• Model simple words and short phrases." ++ nl
         ++ "• Use gestures, pictures, or sign language alongside speech." ++ nl
         ++ "• Follow your child’s lead—talk about what they are interested in." ++ nl
         ++ "• Celebrate all communication attempts (sounds, gestures, words)." ++ nl ++ nl
         ++ "For more structured support, consider consulting a speech-language pathologist." ++ nl ++ nl
         ++ "**Sources**:" ++ nl
         ++ "• Early communication interventions for children with Down Syndrome – Kumin (2003)" |} ].

(* ================================================================== *)
(** ** Effects: exceptions and the trace of calls to collaborators *)
(* ================================================================== *)

(** The exceptions the pipeline can raise. *)
Inductive exn :=
| IndexError                      (* list index out of range *)
| HTTPStatusError (status : Z)    (* [r.raise_for_status()] *)
| TransportError                  (* the request did not complete *)
| ResponseShapeError              (* a key or attribute missing in a reply *)
| LibraryError.                   (* raised inside a collaborator *)

(** One entry per call that leaves the process or enters a library. *)
Inductive event :=
| EvEncode (sentences : list string) (normalize_embeddings : bool)
| EvSearch (top_k : Z)
| EvHttpPost (url : string)
| EvOllamaChat (model : string).

(** A computation: the calls made so far and an exception or a value. *)
Definition M (A : Type) : Type := (list event * (exn + A))%type.

Definition ret {A : Type} (a : A) : M A := ([], inr a).
Definition raise {A : Type} (e : exn) : M A := ([], inl e).
Definition emit (ev : event) : M unit := ([ev], inr tt).

Definition bind {A B : Type} (m : M A) (f : A -> M B) : M B :=
  match m with
  | (t, inl e) => (t, inl e)
  | (t, inr a) => let '(t', r) := f a in ((t ++ t')%list, r)
  end.

(** A library call that raises or returns, without an event of its own. *)
Definition lift {A : Type} (r : exn + A) : M A := ([], r).

Declare Scope py_scope.
Delimit Scope py_scope with py.
Notation "x <- m ;; k" := (bind m (fun x => k))
  (at level 61, m at next level, right associativity) : py_scope.
Notation "m ;;; k" := (bind m (fun _ => k))
  (at level 61, right associativity) : py_scope.
Open Scope py_scope.

(** [for x in xs: out.append(f(x))] where [f] may raise. *)
Fixpoint for_each {A B : Type} (f : A -> M B) (xs : list A) : M (list B) :=
  match xs with
  | [] => ret []
  | x :: rest =>
      y <- f x ;;
      ys <- for_each f rest ;;
      ret (y :: ys)
  end.

Definition trace {A : Type} (m : M A) : list event := fst m.
Definition outcome {A : Type} (m : M A) : exn + A := snd m.

(** [xs[i]] on a Python list: negative indices count from the end. *)
Definition py_index {A : Type} (xs : list A) (i : Z) : exn + A :=
  let n := Z.of_nat (List.length xs) in
  let j := if (i <? 0)%Z then (i + n)%Z else i in
  if orb (j <? 0)%Z (n <=? j)%Z then inl IndexError
  else match nth_error xs (Z.to_nat j) with
       | Some x => inr x
       | None => inl IndexError
       end.

(* ================================================================== *)
(** ** The collaborators and the configuration *)
(* ================================================================== *)

Record HttpRequest := {
  req_url : string;
  req_headers : list (string * string);
  req_model : option string;
  req_messages : list Message;
  req_temperature : R;
  req_max_tokens : Z
}.

(** What the pipeline reads from a reply: the status and, when the JSON
    body has it, [r.json()["choices"][0]["message"]["content"]]. *)
Record HttpResponse := {
  status_code : Z;
  completion : option string
}.

(** The environment variables read at import time and the libraries the
    module calls.  [forward] is the forward pass of the sentence encoder
    named by [EMBEDDING_MODEL]; [index_search q k] is [index.search] on the
    one-row batch [q], giving the rows [D[0]] and [I[0]]; [http_post] is
    [httpx.AsyncClient(timeout=60).post], which raises when the request
    does not complete; [ollama_chat] gives [response.message.content]. *)
Record Env := {
  TOP_K : Z;
  MAX_TOKENS : Z;
  OPENAI_API_KEY : option string;
  OPENAI_MODEL : string;
  AZURE_KEY : option string;
  AZURE_ENDPOINT : option string;
  AZURE_DEPLOYMENT : option string;
  OLLAMA_MODEL : option string;
  forward : string -> vector;
  index_search : vector -> Z -> exn + (list R * list Z);
  meta : list ChunkRecord;
  http_post : HttpRequest -> exn + HttpResponse;
  ollama_chat : string -> list Message -> exn + option string
}.

(* ================================================================== *)
(** ** The embedder *)
(* ================================================================== *)

Open Scope R_scope.

Definition sum_squares (v : vector) : R :=
  fold_right (fun x acc => x * x + acc) 0 v.

Definition l2_norm (v : vector) : R := sqrt (sum_squares v).

Definition dot (u v : vector) : R :=
  fold_right (fun p acc => fst p * snd p + acc) 0 (combine u v).

(** [torch.nn.functional.normalize(v, p=2)]: division by the norm, which
    is clamped from below by [eps = 1e-12]. *)
Definition eps : R := / 10 ^ 12.

Definition normalize (v : vector) : vector :=
  let n := Rmax (l2_norm v) eps in
  map (fun x => x / n) v.

(** [SentenceTransformer.encode(sentences, normalize_embeddings=...)]:
    one vector per sentence, normalized only on request; the keyword
    defaults to [False]. *)
Definition encode (fwd : string -> vector) (sentences : list string)
    (normalize_embeddings : bool) : list vector :=
  map (fun s => if normalize_embeddings then normalize (fwd s) else fwd s) sentences.

(** [llm_server.embed]: [get_embedder().encode([text])], then row 0. *)
Definition embed (env : Env) (text : string) : M vector :=
  emit (EvEncode [text] false) ;;;
  let emb := encode (forward env) [text] false in
  ret (nth 0 emb []).

(** [ingest.py]: [embedder.encode(texts, ..., normalize_embeddings=True)],
    the rows added to the [IndexFlatIP]. *)
Definition embs (fwd : string -> vector) (texts : list string) : list vector :=
  encode fwd texts true.

Close Scope R_scope.

(* ================================================================== *)
(** ** Retrieval, context and prompt *)
(* ================================================================== *)

(** The body of the loop of [retrieve]; the row [I[0]] is written [Ix]. *)
Definition hit_of (records : list ChunkRecord) (p : Z * R) : M Hit :=
  let '(idx, sc) := p in
  rec <- lift (py_index records idx) ;;
  ret {| score := sc; text := get_or (abstract rec) ""; hit_meta := rec |}.

Definition retrieve (env : Env) (query : string) (top_k : Z) : M (list Hit) :=
  q_emb <- embed env query ;;
  emit (EvSearch top_k) ;;;
  DI <- lift (index_search env q_emb top_k) ;;
  let '(D, Ix) := DI in
  for_each (hit_of (meta env)) (combine Ix D).

Definition format_block (s : Hit) : string :=
  let m := hit_meta s in
  let header :=
    "Title: " ++ get_or (title m) "N/A" ++ " | Authors: " ++ get_or (authors m) "N/A"
    ++ " | Year: " ++ get_or (year m) "" in
  "[" ++ header ++ "]" ++ nl ++ text s.

Definition format_context (snippets : list Hit) : string :=
  join (nl ++ nl) (map format_block snippets).

Definition user_turn (query context : string) : Message :=
  {| role := user;
     content :=
       "Caregiver question: " ++ query ++ nl ++ nl
       ++ "Context (use to ground your answer):" ++ nl ++ context ++ nl ++ nl
       ++ "Remember: " ++ NON_DIAGNOSTIC_PREFACE |}.

Definition build_messages (query context : string) : list Message :=
  let msgs := {| role := system; content := SYSTEM_PROMPT |} :: FEWSHOT in
  (msgs ++ [user_turn query context])%list.

(* ================================================================== *)
(** ** The LLM gateway *)
(* ================================================================== *)

Definition NO_PROVIDER_WARNING : string :=
  "⚠️ No LLM provider configured. Please set OPENAI_API_KEY or OLLAMA_MODEL in .env.".

Definition OPENAI_URL : string := "https://api.openai.com/v1/chat/completions".

(** [r.is_success]: the status is one of 200..299. *)
Definition is_success (r : HttpResponse) : bool :=
  andb (200 <=? status_code r)%Z (status_code r <=? 299)%Z.

(** [r.raise_for_status()]: every status outside 200..299 raises. *)
Definition raise_for_status (r : HttpResponse) : M unit :=
  if is_success r
  then ret tt
  else raise (HTTPStatusError (status_code r)).

(** Reading the text of a reply, which raises when it is not there. *)
Definition content_of (c : option string) : M string :=
  match c with
  | Some s => ret s
  | None => raise ResponseShapeError
  end.

Definition openai_request (env : Env) (messages : list Message) : HttpRequest :=
  let headers := [("Authorization", "Bearer " ++ get_or (OPENAI_API_KEY env) "")] in
  {| req_url := OPENAI_URL;
     req_headers := headers;
     req_model := Some (OPENAI_MODEL env);
     req_messages := messages;
     req_temperature := (2 / 10)%R;
     req_max_tokens := MAX_TOKENS env |}.

Definition call_openai (env : Env) (messages : list Message) : M string :=
  emit (EvHttpPost OPENAI_URL) ;;;
  r <- lift (http_post env (openai_request env messages)) ;;
  raise_for_status r ;;;
  c <- content_of (completion r) ;;
  ret (strip c).

Definition call_ollama (env : Env) (messages : list Message) : M string :=
  let model := get_or (OLLAMA_MODEL env) "" in
  emit (EvOllamaChat model) ;;;
  response <- lift (ollama_chat env model messages) ;;
  c <- content_of response ;;
  ret (strip c).

Definition call_llm (env : Env) (messages : list Message) : M string :=
  if truthy (OPENAI_API_KEY env) then call_openai env messages
  else if truthy (OLLAMA_MODEL env) then call_ollama env messages
  else ret NO_PROVIDER_WARNING.

(* ================================================================== *)
(** ** The endpoint *)
(* ================================================================== *)

Definition citation_of (h : Hit) : Citation :=
  let m := hit_meta h in
  {| c_title := title m;
     c_authors := authors m;
     c_year := year m;
     c_url := url m;
     c_source_file := source_file m;
     c_chunk_id := chunk_id m;
     c_score := score h |}.

Definition chat (env : Env) (req : ChatRequest) : M ChatResponse :=
  let '(flagged, crisis) := check_red_flags (query req) in
  match handle_smalltalk (query req) with
  | Some res => ret res
  | None =>
      hits <- retrieve env (query req) (TOP_K env) ;;
      let ctx := format_context hits in
      let msgs := build_messages (query req) ctx in
      answer <- call_llm env msgs ;;
      let answer := if flagged then crisis ++ nl ++ nl ++ answer else answer in
      let citations := map citation_of hits in
      ret {| answer := answer; citations := citations |}
  end.

(* ================================================================== *)
(** ** [server.py]: the legacy endpoint *)
(* ================================================================== *)

Module Server.

(** [retrieve], [format_context] and [build_messages] of [server.py] are
    the functions of [llm_server.py] word for word, reading the module
    globals [index], [META] and [embedder]; they are shared here. *)

Definition AZURE_URL (env : Env) : string :=
  get_or (AZURE_ENDPOINT env) "" ++ "/openai/deployments/"
  ++ get_or (AZURE_DEPLOYMENT env) "" ++ "/chat/completions?api-version=2024-06-01".

Definition azure_request (env : Env) (messages : list Message) : HttpRequest :=
  let headers := [("api-key", get_or (AZURE_KEY env) "")] in
  {| req_url := AZURE_URL env;
     req_headers := headers;
     req_model := None;
     req_messages := messages;
     req_temperature := (2 / 10)%R;
     req_max_tokens := MAX_TOKENS env |}.

Definition call_azure (env : Env) (messages : list Message) : M string :=
  emit (EvHttpPost (AZURE_URL env)) ;;;
  r <- lift (http_post env (azure_request env messages)) ;;
  raise_for_status r ;;;
  c <- content_of (completion r) ;;
  ret (strip c).

Definition azure_configured (env : Env) : bool :=
  andb (truthy (AZURE_KEY env))
       (andb (truthy (AZURE_ENDPOINT env)) (truthy (AZURE_DEPLOYMENT env))).

Definition call_llm (env : Env) (messages : list Message) : M string :=
  if truthy (OPENAI_API_KEY env) then call_openai env messages
  else if azure_configured env then call_azure env messages
  else if truthy (OLLAMA_MODEL env) then call_ollama env messages
  else ret NO_PROVIDER_WARNING.

Definition chat (env : Env) (req : ChatRequest) : M ChatResponse :=
  let '(flagged, crisis) := check_red_flags (query req) in
  hits <- retrieve env (query req) (TOP_K env) ;;
  let ctx := format_context hits in
  let msgs := build_messages (query req) ctx in
  answer <- call_llm env msgs ;;
  let answer := if flagged then crisis ++ nl ++ nl ++ answer else answer in
  let citations := map citation_of hits in
  ret {| answer := answer; citations := citations |}.

End Server.

(* ================================================================== *)
(** ** [utils.py]: cleaning and chunking *)
(* ================================================================== *)

(** [re.sub(r"\s+", " ", text)]: every maximal run of white space becomes
    one space.  [in_run] says that the character before was white space
    and has been replaced already. *)
Fixpoint collapse_whitespace (in_run : bool) (s : string) : string :=
  match s with
  | EmptyString => EmptyString
  | String c r =>
      if is_space c then
        if in_run then collapse_whitespace true r
        else String " "%char (collapse_whitespace true r)
      else String c (collapse_whitespace false r)
  end.

Definition clean_text (text : string) : string :=
  let text := collapse_whitespace false text in
  strip text.

(** [len(s)] counts code points: of the UTF-8 bytes, those that are not
    continuation bytes (0x80..0xBF). *)
Definition is_continuation (c : ascii) : bool :=
  let n := nat_of_ascii c in
  andb (Nat.leb 128 n) (Nat.leb n 191).

Fixpoint py_len (s : string) : Z :=
  match s with
  | EmptyString => 0%Z
  | String c r => ((if is_continuation c then 0 else 1) + py_len r)%Z
  end.

(** [s[n:]] for [0 <= n]: the text after the first [n] code points. *)
Fixpoint skip_continuation (s : string) : string :=
  match s with
  | EmptyString => EmptyString
  | String c r => if is_continuation c then skip_continuation r else s
  end.

Fixpoint drop_chars (n : nat) (s : string) : string :=
  match n, s with
  | O, _ => s
  | S _, EmptyString => EmptyString
  | S k, String _ r => drop_chars k (skip_continuation r)
  end.

(** [s[start:]] for any integer [start]: a negative start counts from
    the end, and both are clamped to the text. *)
Definition slice_from (start : Z) (s : string) : string :=
  let n := py_len s in
  let i := if (start <? 0)%Z then Z.max (start + n) 0 else Z.min start n in
  drop_chars (Z.to_nat i) s.

(** [re.split(r"(?<=[.!?])\s+", text)]: the text is cut at every run of
    white space that follows a full stop, an exclamation mark or a
    question mark, and the run is dropped.  The scan is either inside a
    piece, knowing whether the last character ended a sentence, or inside
    a run that is being dropped. *)
Definition ends_sentence (c : ascii) : bool :=
  orb (Ascii.eqb c "."%char) (orb (Ascii.eqb c "!"%char) (Ascii.eqb c "?"%char)).

Inductive split_state := InPiece (after_end : bool) | InGap.

Definition cons_head (c : ascii) (pieces : list string) : list string :=
  match pieces with
  | [] => [String c EmptyString]
  | p :: ps => String c p :: ps
  end.

Fixpoint split_from (st : split_state) (s : string) : list string :=
  match s with
  | EmptyString => [EmptyString]
  | String c r =>
      match st with
      | InGap =>
          if is_space c then split_from InGap r
          else cons_head c (split_from (InPiece (ends_sentence c)) r)
      | InPiece after_end =>
          if andb after_end (is_space c) then EmptyString :: split_from InGap r
          else cons_head c (split_from (InPiece (ends_sentence c)) r)
      end
  end.

Definition split_sentences (text : string) : list string :=
  split_from (InPiece false) text.

(** The loop of [chunk_text] over the sentences, from the state
    [(chunks, current)]. *)
Fixpoint chunk_loop (max_len overlap : Z) (chunks : list string) (current : string)
    (sentences : list string) : list string * string :=
  match sentences with
  | [] => (chunks, current)
  | sent :: rest =>
      if (py_len current + py_len sent + 1 <=? max_len)%Z then
        chunk_loop max_len overlap chunks (current ++ " " ++ sent) rest
      else
        chunk_loop max_len overlap (chunks ++ [strip current])%list
          (slice_from (- overlap) current ++ " " ++ sent) rest
  end.

Definition chunk_text (text : string) (max_len overlap : Z) : list string :=
  let text := clean_text text in
  if (py_len text <=? max_len)%Z then [text]
  else
    let sentences := split_sentences text in
    let '(chunks, current) := chunk_loop max_len overlap [] "" sentences in
    match strip current with
    | EmptyString => chunks
    | String _ _ => (chunks ++ [strip current])%list
    end.

(* ================================================================== *)
(** ** [ingest.py]: from the rows of a file to chunks and metadata *)
(* ================================================================== *)

(** The three columns of a row as [str(row.get(..., ""))] gives them. *)
Record CsvRow := {
  Title : string;
  Authors : string;
  Abstract : string
}.

(** An element of [all_chunks]. *)
Record Chunk := {
  chunk_body : string;
  chunk_meta : ChunkRecord
}.

(** [enumerate(xs)] from [i]. *)
Fixpoint enumerate_from {A : Type} (i : Z) (xs : list A) : list (Z * A) :=
  match xs with
  | [] => []
  | x :: rest => (i, x) :: enumerate_from (i + 1)%Z rest
  end.

(** The body of the loop over the rows of the file named [basename]. *)
Definition row_chunks (basename : string) (row : CsvRow) : list Chunk :=
  let r_title := clean_text (Title row) in
  let r_authors := clean_text (Authors row) in
  let r_abstract := clean_text (Abstract row) in
  match r_abstract, r_title with
  | EmptyString, EmptyString => []
  | _, _ =>
      let base_text := strip (r_title ++ nl ++ nl ++ r_abstract) in
      let chunks := chunk_text base_text 1200 150 in
      map (fun p =>
             {| chunk_body := snd p;
                chunk_meta :=
                  {| title := Some r_title;
                     authors := Some r_authors;
                     abstract := Some r_abstract;
                     source_file := Some basename;
                     chunk_id := Some (fst p);
                     year := None;
                     url := None |} |})
          (enumerate_from 0 chunks)
  end.

(** [all_chunks] after the loops over the files and their rows, the
    texts that are embedded, and the list written to [meta.json]. *)
Definition all_chunks (files : list (string * list CsvRow)) : list Chunk :=
  flat_map (fun f => flat_map (row_chunks (fst f)) (snd f)) files.

Definition texts (chunks : list Chunk) : list string := map chunk_body chunks.

Definition meta_json (chunks : list Chunk) : list ChunkRecord := map chunk_meta chunks.

(* ================================================================== *)
(** ** [pages/index.py]: the state of the chat page *)
(* ================================================================== *)

Module ChatPage.

(** [Message] of the page: the role is a string there. *)
Record Message := {
  role : string;
  content : string
}.

Record ChatState := {
  name : string;
  email : string;
  messages : list Message;
  user_input : string;
  loading : bool
}.

(** What the page reads from a reply of the backend: the status and the
    JSON body, [None] when [r.json()] raises, otherwise the value of its
    key [answer] if it has one. *)
Record Reply := {
  reply_status : Z;
  reply_body : option (option string)
}.

(** The HTTP client of the page and the text [str(e)] of an exception. *)
Record Client := {
  post_chat : string -> exn + Reply;
  exn_text : exn -> string
}.

Definition PLACEHOLDER : string := "• • •".

Definition set_loading (b : bool) (st : ChatState) : ChatState :=
  {| name := name st; email := email st; messages := messages st;
     user_input := user_input st; loading := b |}.

Definition set_messages (ms : list Message) (st : ChatState) : ChatState :=
  {| name := name st; email := email st; messages := ms;
     user_input := user_input st; loading := loading st |}.

(** [self.messages.pop()] *)
Definition pop {A : Type} (xs : list A) : list A := removelast xs.

Definition new_chat (st : ChatState) : ChatState :=
  {| name := name st; email := email st; messages := [];
     user_input := ""; loading := false |}.

(** The [try] block of [send_message] from the state reached at the
    [yield]: the messages after it, whether it raised or not. *)
Definition exchange (client : Client) (query : string) (ms : list Message)
    : list Message :=
  match post_chat client query with
  | inl e => (ms ++ [{| role := "assistant"; content := "⚠️ Error: " ++ exn_text client e |}])%list
  | inr r =>
      if andb (200 <=? reply_status r)%Z (reply_status r <=? 299)%Z then
        match reply_body r with
        | None =>
            let e := ResponseShapeError in
            (ms ++ [{| role := "assistant"; content := "⚠️ Error: " ++ exn_text client e |}])%list
        | Some data =>
            (pop ms ++ [{| role := "assistant"; content := get_or data "" |}])%list
        end
      else
        let e := HTTPStatusError (reply_status r) in
        (ms ++ [{| role := "assistant"; content := "⚠️ Error: " ++ exn_text client e |}])%list
  end.

(** [send_message]: the states the page shows, the one at the [yield]
    and the one at the end; a blank input or a request in flight leaves
    the state as it is and shows nothing new. *)
Definition send_message (client : Client) (st : ChatState) : list ChatState :=
  if orb (negb (match strip (user_input st) with EmptyString => false | _ => true end))
         (loading st)
  then []
  else
    let query := user_input st in
    let at_yield :=
      {| name := name st; email := email st;
         messages := (messages st
                      ++ [{| role := "user"; content := user_input st |};
                          {| role := "assistant"; content := PLACEHOLDER |}])%list;
         user_input := "";
         loading := true |} in
    let at_end :=
      set_loading false
        (set_messages (exchange client query (messages at_yield)) at_yield) in
    [at_yield; at_end].

End ChatPage.

(* ================================================================== *)
(** * Specification-level definitions *)
(* ================================================================== *)

(** ** Strings *)

(** The string is empty or its first character is not white space. *)
Definition no_leading_space (s : string) : bool :=
  match s with
  | EmptyString => true
  | String c _ => negb (is_space c)
  end.

(** A text of ASCII characters only: every byte is below 128. *)
Definition is_ascii_char (c : ascii) : bool := Nat.ltb (nat_of_ascii c) 128.

Fixpoint is_ascii (s : string) : bool :=
  match s with
  | EmptyString => true
  | String c r => andb (is_ascii_char c) (is_ascii r)
  end.

(** [c.upper()] on one ASCII character and [s.upper()] on an ASCII text:
    [a]..[z] move to [A]..[Z].  It stands for [str.upper] on ASCII texts
    only and is used under [is_ascii] in the statements. *)
Definition upper_char (c : ascii) : ascii :=
  let n := nat_of_ascii c in
  if andb (Nat.leb 97 n) (Nat.leb n 122) then ascii_of_nat (n - 32) else c.

Fixpoint upper (s : string) : string :=
  match s with
  | EmptyString => EmptyString
  | String c r => String (upper_char c) (upper r)
  end.

(** [n] spaces. *)
Fixpoint spaces (n : nat) : string :=
  match n with
  | O => EmptyString
  | S k => String " "%char (spaces k)
  end.

(** ** The smalltalk categories as the specification words them *)

Inductive Category := Greeting | Gratitude | Farewell | HowAreYou | Capabilities.

Definition patterns (c : Category) : list string :=
  match c with
  | Greeting => greetings
  | Gratitude => gratitude
  | Farewell => farewell
  | HowAreYou => how_are_you
  | Capabilities => capabilities
  end.

Definition canned (c : Category) : string :=
  match c with
  | Greeting => GREETING_ANSWER
  | Gratitude => GRATITUDE_ANSWER
  | Farewell => FAREWELL_ANSWER
  | HowAreYou => HOW_ARE_YOU_ANSWER
  | Capabilities => CAPABILITIES_ANSWER
  end.

(** When a category matches a normalized text: greeting and farewell by
    a pattern at the start, gratitude and how-are-you by a pattern
    anywhere, capabilities by a pattern anywhere or the whole text. *)
Definition matches (c : Category) (t : string) : Prop :=
  match c with
  | Greeting | Farewell => exists g, In g (patterns c) /\ is_prefix g t
  | Gratitude | HowAreYou => exists g, In g (patterns c) /\ is_substring g t
  | Capabilities => exists g, In g (patterns c) /\ (t = g \/ is_substring g t)
  end.

(** The fixed priority order: the position of a category in it. *)
Definition rank (c : Category) : nat :=
  match c with
  | Greeting => 0
  | Gratitude => 1
  | Farewell => 2
  | HowAreYou => 3
  | Capabilities => 4
  end.

(** [c] is the first category, in priority order, that matches [t]. *)
Definition first_match (c : Category) (t : string) : Prop :=
  matches c t /\ forall c', (rank c' < rank c)%nat -> ~ matches c' t.

(** The test the code runs for a category. *)
Definition matchb (c : Category) (t : string) : bool :=
  match c with
  | Greeting | Farewell => any (fun g => startswith t g) (patterns c)
  | Gratitude | HowAreYou => any (fun g => contains g t) (patterns c)
  | Capabilities => any (fun g => orb (String.eqb t g) (contains g t)) (patterns c)
  end.

(** ** Counting the messages of a role *)

Definition role_eqb (a b : Role) : bool :=
  match a, b with
  | system, system | user, user | assistant, assistant => true
  | _, _ => false
  end.

Definition count_role (r : Role) (msgs : list Message) : nat :=
  List.length (filter (fun m => role_eqb (role m) r) msgs).

(** The answer of the endpoint for a generated text: the crisis message
    and a blank line go in front when the query was flagged. *)
Definition with_preface (query answer : string) : string :=
  if fst (check_red_flags query) then CRISIS_MSG ++ nl ++ nl ++ answer else answer.

(** ** The contract of the flat inner-product index *)

(** The largest finite single-precision number; FAISS fills the scores
    of the places it has no neighbour for with its negation and their
    labels with [-1]. *)
Definition FLT_MAX : R := (2 ^ 128 - 2 ^ 104)%R.

(** What [index.search] returns for [k] neighbours over [ntotal] stored
    vectors: two rows of [k] entries; the first [min k ntotal] labels are
    rows of the index, the remaining entries are the padding. *)
Definition faiss_result_ok (ntotal : nat) (k : Z) (D : list R) (Ix : list Z) : Prop :=
  List.length D = Z.to_nat k /\
  List.length Ix = Z.to_nat k /\
  Forall (fun i => (0 <= i < Z.of_nat ntotal)%Z) (firstn ntotal Ix) /\
  skipn ntotal Ix = repeat (-1)%Z (Z.to_nat k - ntotal) /\
  skipn ntotal D = repeat (- FLT_MAX)%R (Z.to_nat k - ntotal).

Definition faiss_search_contract (ntotal : nat)
    (search : vector -> Z -> exn + (list R * list Z)) : Prop :=
  forall q k, (0 < k)%Z ->
    exists D Ix, search q k = inr (D, Ix) /\ faiss_result_ok ntotal k D Ix.

(** The hit that [retrieve] builds from a padding entry: label [-1]
    reads the last record [last] of the metadata sequence. *)
Definition padding_hit (last : ChunkRecord) : Hit :=
  {| score := (- FLT_MAX)%R; text := get_or (abstract last) ""; hit_meta := last |}.

(** An exhaustive inner-product index over the stored rows [xb], in the
    manner of [faiss.IndexFlatIP]: every row is scored against the query,
    the rows are ranked by descending score and the result is padded to
    [k] entries. *)
Fixpoint insert_desc (x : R * Z) (l : list (R * Z)) : list (R * Z) :=
  match l with
  | [] => [x]
  | y :: r => if Rle_dec (fst y) (fst x) then x :: y :: r else y :: insert_desc x r
  end.

Definition ranked (xb : list vector) (q : vector) : list (R * Z) :=
  fold_right insert_desc []
    (combine (map (dot q) xb) (map Z.of_nat (seq 0 (List.length xb)))).

Definition IndexFlatIP_search (xb : list vector) (q : vector) (k : Z)
    : exn + (list R * list Z) :=
  if (k <=? 0)%Z then inl LibraryError
  else
    let top := firstn (Z.to_nat k) (ranked xb q) in
    let pad := repeat ((- FLT_MAX)%R, (-1)%Z) (Z.to_nat k - List.length top) in
    let res := (top ++ pad)%list in
    inr (map fst res, map snd res).

(** ** Sample deployments *)

Definition sleep_record : ChunkRecord :=
  {| title := Some "Sleep disorders in Down Syndrome";
     authors := Some "Breslin et al.";
     abstract := Some "Sleep problems are common in children with Down Syndrome.";
     source_file := Some "sleep.csv";
     chunk_id := Some 0%Z;
     year := Some "2014";
     url := None |}.

(** A sentence encoder whose output for every text is the vector (3, 4),
    of length 5: an encoder without a normalization layer. *)
Definition raw_forward (_ : string) : vector := [3%R; 4%R].

(** A corpus of one chunk, indexed as [ingest.py] does, and no provider
    configured. *)
Definition demo_env : Env :=
  {| TOP_K := 5;
     MAX_TOKENS := 700;
     OPENAI_API_KEY := None;
     OPENAI_MODEL := "gpt-4o-mini";
     AZURE_KEY := None;
     AZURE_ENDPOINT := None;
     AZURE_DEPLOYMENT := None;
     OLLAMA_MODEL := None;
     forward := raw_forward;
     index_search := IndexFlatIP_search (embs raw_forward ["sleep"]);
     meta := [sleep_record];
     http_post := fun _ => inl TransportError;
     ollama_chat := fun _ _ => inl LibraryError |}.

(** A query that is neither smalltalk nor flagged, and what retrieval
    returns for it on [demo_env] with the default [TOP_K] of 5: the one
    chunk of the corpus, then four padding hits. *)
Definition demo_query : string := "My child won't sleep, any tips?".

Definition demo_hits : list Hit :=
  {| score := dot (raw_forward demo_query) (normalize (raw_forward "sleep"));
     text := "Sleep problems are common in children with Down Syndrome.";
     hit_meta := sleep_record |}
  :: repeat (padding_hit sleep_record) 4.

(** The same deployment with both providers configured and an OpenAI
    endpoint that answers every request with status 500. *)
Definition failing_openai_env : Env :=
  {| TOP_K := 5;
     MAX_TOKENS := 700;
     OPENAI_API_KEY := Some "sk-test";
     OPENAI_MODEL := "gpt-4o-mini";
     AZURE_KEY := Some "azure-key";
     AZURE_ENDPOINT := Some "https://example.openai.azure.com";
     AZURE_DEPLOYMENT := Some "gpt4";
     OLLAMA_MODEL := Some "llama3";
     forward := raw_forward;
     index_search := IndexFlatIP_search (embs raw_forward ["sleep"]);
     meta := [sleep_record];
     http_post := fun _ => inr {| status_code := 500; completion := None |};
     ollama_chat := fun _ _ => inr (Some "local answer") |}.

(** ** Further strings and deployments used in the statements below *)

(** The string is empty or its last character is not white space. *)
Fixpoint no_trailing_space (s : string) : bool :=
  match s with
  | EmptyString => true
  | String c EmptyString => negb (is_space c)
  | String _ r => no_trailing_space r
  end.

(** A pattern that [strip] cannot cut into: not empty, no white space at
    either end. *)
Definition solid (p : string) : bool :=
  match p with
  | EmptyString => false
  | String _ _ => andb (no_leading_space p) (no_trailing_space p)
  end.

(** The patterns of the three categories that match anywhere in the
    text. *)
Definition anywhere_patterns : list string :=
  (gratitude ++ how_are_you ++ capabilities)%list.

(** The separator that [build_messages] writes between the query and the
    context. *)
Definition CONTEXT_HEADER : string :=
  nl ++ nl ++ "Context (use to ground your answer):" ++ nl.

(** A deployment with an index and a metadata sequence that are both
    empty. *)
Definition empty_corpus_env : Env :=
  {| TOP_K := 5;
     MAX_TOKENS := 700;
     OPENAI_API_KEY := None;
     OPENAI_MODEL := "gpt-4o-mini";
     AZURE_KEY := None;
     AZURE_ENDPOINT := None;
     AZURE_DEPLOYMENT := None;
     OLLAMA_MODEL := None;
     forward := raw_forward;
     index_search := IndexFlatIP_search [];
     meta := [];
     http_post := fun _ => inl TransportError;
     ollama_chat := fun _ _ => inl LibraryError |}.

(** A deployment with an OpenAI key whose requests do not complete. *)
Definition offline_openai_env : Env :=
  {| TOP_K := 5;
     MAX_TOKENS := 700;
     OPENAI_API_KEY := Some "sk-test";
     OPENAI_MODEL := "gpt-4o-mini";
     AZURE_KEY := None;
     AZURE_ENDPOINT := None;
     AZURE_DEPLOYMENT := None;
     OLLAMA_MODEL := Some "llama3";
     forward := raw_forward;
     index_search := IndexFlatIP_search (embs raw_forward ["sleep"]);
     meta := [sleep_record];
     http_post := fun _ => inl TransportError;
     ollama_chat := fun _ _ => inr (Some "local answer") |}.

(** A deployment with an OpenAI key whose endpoint answers every request
    with status 200 and a completion padded with white space. *)
Definition working_openai_env : Env :=
  {| TOP_K := 5;
     MAX_TOKENS := 700;
     OPENAI_API_KEY := Some "sk-test";
     OPENAI_MODEL := "gpt-4o-mini";
     AZURE_KEY := None;
     AZURE_ENDPOINT := None;
     AZURE_DEPLOYMENT := None;
     OLLAMA_MODEL := None;
     forward := raw_forward;
     index_search := IndexFlatIP_search (embs raw_forward ["sleep"]);
     meta := [sleep_record];
     http_post := fun _ =>
       inr {| status_code := 200;
              completion := Some ("  Keep a consistent bedtime routine." ++ nl) |};
     ollama_chat := fun _ _ => inl LibraryError |}.

(** A hit whose record has none of the optional fields. *)
Definition orphan_hit : Hit :=
  {| score := 1%R;
     text := "orphan chunk";
     hit_meta := {| title := None; authors := None; abstract := None;
                    source_file := None; chunk_id := None;
                    year := None; url := None |} |}.

(** An index whose labels run past the metadata sequence: two stored
    vectors, one record. *)
Definition out_of_step_env : Env :=
  {| TOP_K := 2;
     MAX_TOKENS := 700;
     OPENAI_API_KEY := None;
     OPENAI_MODEL := "gpt-4o-mini";
     AZURE_KEY := None;
     AZURE_ENDPOINT := None;
     AZURE_DEPLOYMENT := None;
     OLLAMA_MODEL := None;
     forward := raw_forward;
     index_search := fun _ _ => inr ([1%R; 0%R], [1%Z; 0%Z]);
     meta := [sleep_record];
     http_post := fun _ => inl TransportError;
     ollama_chat := fun _ _ => inl LibraryError |}.

(** ** Cleaned text *)

(** Every white-space character of the string is a space and the
    character after it, if there is one, is not white space. *)
Fixpoint spaced_once (s : string) : bool :=
  match s with
  | EmptyString => true
  | String c r =>
      andb (if is_space c then andb (Ascii.eqb c " "%char) (no_leading_space r) else true)
           (spaced_once r)
  end.

(** A text in the form [clean_text] produces: single spaces between the
    words and none at either end. *)
Definition is_clean (s : string) : bool :=
  andb (no_leading_space s) (andb (no_trailing_space s) (spaced_once s)).

(** The characters of a string that are not white space, in order. *)
Fixpoint non_space_chars (s : string) : list ascii :=
  match s with
  | EmptyString => []
  | String c r => if is_space c then non_space_chars r else c :: non_space_chars r
  end.

(** Each string of the list is a prefix of the one after it. *)
Fixpoint each_prefix_of_next (l : list string) : Prop :=
  match l with
  | a :: (b :: _) as rest => is_prefix a b /\ each_prefix_of_next rest
  | _ => True
  end.

(** ** A corpus built by ingestion *)

Definition sleep_row : CsvRow :=
  {| Title := "Sleep disorders  in Down Syndrome";
     Authors := "Breslin et al.";
     Abstract := " Sleep problems are common." ++ nl ++ "They can be treated. " |}.

Definition blank_row : CsvRow :=
  {| Title := "  "; Authors := "Nobody"; Abstract := nl |}.

Definition demo_files : list (string * list CsvRow) :=
  [("sleep.csv", [sleep_row; blank_row])].

(** The deployment that serves what ingestion wrote for [demo_files]. *)
Definition ingested_env : Env :=
  {| TOP_K := 5;
     MAX_TOKENS := 700;
     OPENAI_API_KEY := None;
     OPENAI_MODEL := "gpt-4o-mini";
     AZURE_KEY := None;
     AZURE_ENDPOINT := None;
     AZURE_DEPLOYMENT := None;
     OLLAMA_MODEL := None;
     forward := raw_forward;
     index_search := IndexFlatIP_search (embs raw_forward (texts (all_chunks demo_files)));
     meta := meta_json (all_chunks demo_files);
     http_post := fun _ => inl TransportError;
     ollama_chat := fun _ _ => inl LibraryError |}.

(** ** The chat page *)

(** The exception, if any, that the [try] block of [send_message] runs
    into for a query: a request that does not complete, a status outside
    200..299, or a body that is not JSON. *)
Definition request_error (client : ChatPage.Client) (query : string) : option exn :=
  match ChatPage.post_chat client query with
  | inl e => Some e
  | inr r =>
      if andb (200 <=? ChatPage.reply_status r)%Z (ChatPage.reply_status r <=? 299)%Z then
        match ChatPage.reply_body r with
        | None => Some ResponseShapeError
        | Some _ => None
        end
      else Some (HTTPStatusError (ChatPage.reply_status r))
  end.

(** A backend that answers every query with one text, and one that is
    not reachable. *)
Definition echo_client : ChatPage.Client :=
  {| ChatPage.post_chat := fun q =>
       inr {| ChatPage.reply_status := 200;
              ChatPage.reply_body := Some (Some ("You asked: " ++ q)) |};
     ChatPage.exn_text := fun _ => "unused" |}.

Definition down_client : ChatPage.Client :=
  {| ChatPage.post_chat := fun _ => inl TransportError;
     ChatPage.exn_text := fun _ => "All connection attempts failed" |}.

Definition fresh_state (input : string) : ChatPage.ChatState :=
  {| ChatPage.name := "Ada"; ChatPage.email := "ada@example.org";
     ChatPage.messages := []; ChatPage.user_input := input;
     ChatPage.loading := false |}.

(* ================================================================== *)
(** * Properties *)
(* ================================================================== *)

(** ** Strings *)

Section StringFacts.

Lemma startswith_is_prefix (s p : string) :
  startswith s p = true <-> is_prefix p s.
Proof.
  revert s; induction p as [|a p IH]; intros s.
  - split; [intros _; exists s; reflexivity | reflexivity].
  - destruct s as [|b s]; simpl.
    + split; [discriminate | intros [x Hx]; discriminate].
    + rewrite andb_true_iff, Ascii.eqb_eq, IH. split.
      * intros [-> [x ->]]. exists x. reflexivity.
      * intros [x Hx]. simpl in Hx. injection Hx as -> ->.
        split; [reflexivity | exists x; reflexivity].
Qed.

Lemma contains_unfold (p s : string) :
  contains p s =
  orb (startswith s p)
      (match s with EmptyString => false | String _ r => contains p r end).
Proof. destruct s; reflexivity. Qed.

Lemma append_assoc (a b c : string) : (a ++ b) ++ c = a ++ (b ++ c).
Proof. induction a as [|x a IH]; simpl; [reflexivity | now rewrite IH]. Qed.

Lemma append_empty_r (a : string) : a ++ "" = a.
Proof. induction a as [|x a IH]; simpl; [reflexivity | now rewrite IH]. Qed.

Lemma contains_is_substring (p s : string) :
  contains p s = true <-> is_substring p s.
Proof.
  split.
  - induction s as [|c s IH]; rewrite contains_unfold, orb_true_iff.
    + intros [H | H]; [|discriminate].
      apply startswith_is_prefix in H. destruct H as [b Hb].
      exists "", b. exact Hb.
    + intros [H | H].
      * apply startswith_is_prefix in H. destruct H as [b Hb].
        exists "", b. exact Hb.
      * destruct (IH H) as [a [b Hab]]. exists (String c a), b.
        simpl. now rewrite Hab.
  - intros [a [b Hab]]. revert s Hab.
    induction a as [|c a IH]; intros s Hab; rewrite contains_unfold, orb_true_iff.
    + left. apply startswith_is_prefix. exists b. exact Hab.
    + right. subst s. simpl. apply IH. reflexivity.
Qed.

Lemma any_exists {A : Type} (f : A -> bool) (xs : list A) :
  any f xs = true <-> exists x, In x xs /\ f x = true.
Proof. apply existsb_exists. Qed.

(** The case mapping leaves white space and everything but capital
    letters alone, and its image has no capital letter. *)
Lemma lower_char_idem (c : ascii) : lower_char (lower_char c) = lower_char c.
Proof.
  destruct c as [[] [] [] [] [] [] [] []]; reflexivity.
Qed.

Lemma is_space_lower_char (c : ascii) : is_space (lower_char c) = is_space c.
Proof.
  destruct c as [[] [] [] [] [] [] [] []]; reflexivity.
Qed.

Lemma lower_idem (s : string) : lower (lower s) = lower s.
Proof.
  induction s as [|c s IH]; simpl; [reflexivity|].
  now rewrite lower_char_idem, IH.
Qed.

Lemma lower_lstrip (s : string) : lower (lstrip s) = lstrip (lower s).
Proof.
  induction s as [|c s IH]; simpl; [reflexivity|].
  rewrite is_space_lower_char. destruct (is_space c); [exact IH | reflexivity].
Qed.

Lemma lower_rstrip (s : string) : lower (rstrip s) = rstrip (lower s).
Proof.
  induction s as [|c s IH]; simpl; [reflexivity|].
  rewrite <- IH, is_space_lower_char.
  destruct (rstrip s) as [|d r]; simpl; [|reflexivity].
  destruct (is_space c); reflexivity.
Qed.

Lemma lower_strip (s : string) : lower (strip s) = strip (lower s).
Proof. unfold strip. now rewrite lower_rstrip, lower_lstrip. Qed.

(** A string that [lstrip] returns is empty or starts with a character
    that is not white space, and [rstrip] keeps such a first character. *)
Lemma lstrip_no_leading_space (s : string) : no_leading_space (lstrip s) = true.
Proof.
  induction s as [|c s IH]; simpl; [reflexivity|].
  destruct (is_space c) eqn:E; [exact IH | simpl; now rewrite E].
Qed.

Lemma lstrip_fixed (s : string) : no_leading_space s = true -> lstrip s = s.
Proof.
  destruct s as [|c s]; simpl; [reflexivity|].
  destruct (is_space c); [discriminate | reflexivity].
Qed.

Lemma rstrip_no_leading_space (s : string) :
  no_leading_space s = true -> no_leading_space (rstrip s) = true.
Proof.
  destruct s as [|c s]; simpl; [reflexivity|].
  intros H. destruct (rstrip s); simpl.
  - destruct (is_space c) eqn:E; [discriminate | simpl; now rewrite E].
  - exact H.
Qed.

Lemma rstrip_idem (s : string) : rstrip (rstrip s) = rstrip s.
Proof.
  induction s as [|c s IH]; simpl; [reflexivity|].
  destruct (rstrip s) as [|d r] eqn:E.
  - destruct (is_space c) eqn:Ec; simpl; [reflexivity | now rewrite Ec].
  - change (rstrip (String c (String d r)))
      with (match rstrip (String d r) with
            | EmptyString => if is_space c then EmptyString else String c EmptyString
            | r' => String c r'
            end).
    rewrite IH. reflexivity.
Qed.

Lemma strip_idem (s : string) : strip (strip s) = strip s.
Proof.
  unfold strip.
  rewrite (lstrip_fixed (rstrip (lstrip s))).
  - apply rstrip_idem.
  - apply rstrip_no_leading_space, lstrip_no_leading_space.
Qed.

(** The normal form the matcher works on is a fixed point of the
    normalization. *)
Lemma normalize_text_idem (s : string) :
  strip (lower (strip (lower s))) = strip (lower s).
Proof. now rewrite lower_strip, lower_idem, strip_idem. Qed.

End StringFacts.

(** ** The safety filter *)

Section SafetyFilter.

Lemma scan_red_flags_any (flags : list string) (t : string) :
  scan_red_flags flags t =
  if any (fun rf => contains rf t) flags then (true, CRISIS_MSG) else (false, "").
Proof.
  induction flags as [|rf rest IH]; simpl; [reflexivity|].
  destruct (contains rf t); simpl; [reflexivity | exact IH].
Qed.

Lemma any_red_flag (flags : list string) (t : string) :
  any (fun rf => contains rf t) flags = true <->
  exists rf, In rf flags /\ is_substring rf t.
Proof.
  rewrite any_exists. split; intros [rf [Hin H]]; exists rf; split; trivial;
    now apply contains_is_substring.
Qed.

Lemma CRISIS_MSG_nonempty : CRISIS_MSG <> "".
Proof. discriminate. Qed.

End SafetyFilter.

(** C4.  For every text, [check_red_flags] returns [(True, CRISIS_MSG)],
    with [CRISIS_MSG] a fixed non-empty message, exactly when the
    lower-cased text has one of the crisis phrases as a substring, and
    [(False, "")] exactly when it has none; "He is NOT RESPONSIVE right
    now" is flagged and "I feel great today" is not. *)
Theorem check_red_flags_spec :
  forall text : string,
    (check_red_flags text = (true, CRISIS_MSG) <->
     exists rf, In rf RED_FLAGS /\ is_substring rf (lower text)) /\
    (check_red_flags text = (false, "") <->
     ~ exists rf, In rf RED_FLAGS /\ is_substring rf (lower text)) /\
    CRISIS_MSG <> "" /\
    check_red_flags "He is NOT RESPONSIVE right now" = (true, CRISIS_MSG) /\
    check_red_flags "I feel great today" = (false, "").
Proof.
  intros text. unfold check_red_flags.
  rewrite scan_red_flags_any, <- any_red_flag.
  destruct (any (fun rf => contains rf (lower text)) RED_FLAGS) eqn:E.
  - repeat split; try reflexivity; try discriminate; try apply CRISIS_MSG_nonempty;
      intros H; try discriminate; now elim H.
  - repeat split; try reflexivity; try discriminate; try apply CRISIS_MSG_nonempty.
Qed.

(** ** The smalltalk matcher *)

Section SmalltalkMatcher.

Lemma matchb_matches (c : Category) (t : string) :
  matchb c t = true <-> matches c t.
Proof.
  destruct c; unfold matchb, matches; rewrite any_exists;
    split; intros [g [Hin H]]; exists g; split; trivial.
  - now apply startswith_is_prefix.
  - now apply startswith_is_prefix.
  - now apply contains_is_substring.
  - now apply contains_is_substring.
  - now apply startswith_is_prefix.
  - now apply startswith_is_prefix.
  - now apply contains_is_substring.
  - now apply contains_is_substring.
  - apply orb_true_iff in H. destruct H as [H | H].
    + left. now apply String.eqb_eq.
    + right. now apply contains_is_substring.
  - apply orb_true_iff. destruct H as [H | H].
    + left. now apply String.eqb_eq.
    + right. now apply contains_is_substring.
Qed.

(** The chain of tests of [handle_smalltalk] is a search through the
    categories in priority order. *)
Lemma handle_smalltalk_find (user_input : string) :
  handle_smalltalk user_input =
  option_map (fun c => {| answer := canned c; citations := [] |})
    (find (fun c => matchb c (strip (lower user_input)))
          [Greeting; Gratitude; Farewell; HowAreYou; Capabilities]).
Proof.
  unfold handle_smalltalk, find, matchb, patterns.
  destruct (any _ greetings); [reflexivity|].
  destruct (any _ gratitude); [reflexivity|].
  destruct (any _ farewell); [reflexivity|].
  destruct (any _ how_are_you); [reflexivity|].
  destruct (any _ capabilities); reflexivity.
Qed.

Lemma canned_injective (c c' : Category) : canned c = canned c' -> c = c'.
Proof. destruct c, c'; intros H; try reflexivity; discriminate H. Qed.

Lemma first_match_find (c : Category) (t : string) :
  find (fun c => matchb c t) [Greeting; Gratitude; Farewell; HowAreYou; Capabilities]
  = Some c <-> first_match c t.
Proof.
  unfold first_match. split.
  - intros H. split.
    + apply matchb_matches. now apply find_some in H.
    + intros c' Hlt Hm. apply matchb_matches in Hm.
      unfold find in H.
      destruct (matchb Greeting t) eqn:E0;
        [injection H as <-; destruct c'; simpl in Hlt; lia|].
      destruct (matchb Gratitude t) eqn:E1;
        [injection H as <-; destruct c'; simpl in Hlt; try lia; congruence|].
      destruct (matchb Farewell t) eqn:E2;
        [injection H as <-; destruct c'; simpl in Hlt; try lia; congruence|].
      destruct (matchb HowAreYou t) eqn:E3;
        [injection H as <-; destruct c'; simpl in Hlt; try lia; congruence|].
      destruct (matchb Capabilities t) eqn:E4;
        [injection H as <-; destruct c'; simpl in Hlt; try lia; congruence|].
      discriminate.
  - intros [Hm Hfirst]. apply matchb_matches in Hm.
    assert (Hno : forall c', (rank c' < rank c)%nat -> matchb c' t = false).
    { intros c' Hlt. destruct (matchb c' t) eqn:E; [|reflexivity].
      exfalso. apply (Hfirst c' Hlt). now apply matchb_matches. }
    unfold find.
    destruct c; simpl in Hno;
      repeat match goal with
             | |- context [matchb ?d t] =>
                 first [ rewrite Hm
                       | rewrite (Hno d) by (simpl; lia) ]
             end; reflexivity.
Qed.

Lemma no_match_find (t : string) :
  find (fun c => matchb c t) [Greeting; Gratitude; Farewell; HowAreYou; Capabilities]
  = None <-> forall c, ~ matches c t.
Proof.
  split.
  - intros H c Hm. apply matchb_matches in Hm.
    assert (Hin : In c [Greeting; Gratitude; Farewell; HowAreYou; Capabilities])
      by (destruct c; simpl; tauto).
    pose proof (find_none _ _ H c Hin) as Hf. simpl in Hf. congruence.
  - intros H. unfold find.
    assert (Hno : forall c, matchb c t = false).
    { intros c. destruct (matchb c t) eqn:E; [|reflexivity].
      exfalso. apply (H c). now apply matchb_matches. }
    now rewrite !Hno.
Qed.

End SmalltalkMatcher.

(** C5.  For every user text, the answer of [handle_smalltalk] is the
    canned answer of a category, with empty citations, exactly when that
    category is the first one, in the order greeting, gratitude, farewell,
    how-are-you, capabilities, that matches the lower-cased trimmed text
    (greeting and farewell by a pattern at its start, gratitude and
    how-are-you by a pattern anywhere, capabilities by a pattern anywhere
    or equal to it); the result is [None] exactly when no category
    matches; and "hi there, how are you?" is a greeting. *)
Theorem handle_smalltalk_priority :
  forall user_input : string,
    (forall c : Category,
        handle_smalltalk user_input = Some {| answer := canned c; citations := [] |}
        <-> first_match c (strip (lower user_input))) /\
    (handle_smalltalk user_input = None
     <-> forall c : Category, ~ matches c (strip (lower user_input))) /\
    handle_smalltalk "hi there, how are you?"
    = Some {| answer := GREETING_ANSWER; citations := [] |} /\
    matches HowAreYou (strip (lower "hi there, how are you?")).
Proof.
  intros user_input. rewrite handle_smalltalk_find.
  split; [intros c; split | split; [split | split]].
  - intros H. apply first_match_find.
    destruct (find _ _) as [c0|]; simpl in H; [|discriminate].
    injection H as Hc. apply canned_injective in Hc. now subst.
  - intros H. apply first_match_find in H. now rewrite H.
  - intros H. apply no_match_find.
    destruct (find _ _); [discriminate | reflexivity].
  - intros H. apply no_match_find in H. now rewrite H.
  - reflexivity.
  - apply matchb_matches. reflexivity.
Qed.

Section Normalization.

Lemma handle_smalltalk_same_normal_form (s s' : string) :
  strip (lower s) = strip (lower s') -> handle_smalltalk s = handle_smalltalk s'.
Proof. intros H. rewrite !handle_smalltalk_find. now rewrite H. Qed.

Lemma lower_upper_char (c : ascii) :
  is_ascii_char c = true -> lower_char (upper_char c) = lower_char c.
Proof.
  destruct c as [[] [] [] [] [] [] [] []]; intros H; try reflexivity; discriminate H.
Qed.

(** On an ASCII text, lower-casing undoes upper-casing. *)
Lemma lower_upper (s : string) :
  is_ascii s = true -> lower (upper s) = lower s.
Proof.
  induction s as [|c s IH]; simpl; [reflexivity|].
  intros H. apply andb_prop in H. destruct H as [Hc Hs].
  now rewrite lower_upper_char, IH.
Qed.

Lemma lower_append (a b : string) : lower (a ++ b) = lower a ++ lower b.
Proof. induction a as [|c a IH]; simpl; [reflexivity | now rewrite IH]. Qed.

Lemma lower_spaces (n : nat) : lower (spaces n) = spaces n.
Proof. induction n as [|n IH]; simpl; [reflexivity | now rewrite IH]. Qed.

Lemma lstrip_spaces_append (n : nat) (x : string) : lstrip (spaces n ++ x) = lstrip x.
Proof. induction n as [|n IH]; simpl; [reflexivity | exact IH]. Qed.

Lemma rstrip_spaces (m : nat) : rstrip (spaces m) = "".
Proof. induction m as [|m IH]; simpl; [reflexivity | now rewrite IH]. Qed.

Lemma rstrip_append_spaces (x : string) (m : nat) : rstrip (x ++ spaces m) = rstrip x.
Proof.
  induction x as [|c x IH]; simpl; [apply rstrip_spaces | now rewrite IH].
Qed.

Lemma strip_append_spaces (x : string) (m : nat) : strip (x ++ spaces m) = strip x.
Proof.
  unfold strip. induction x as [|c x IH]; simpl.
  - rewrite <- (append_empty_r (spaces m)), lstrip_spaces_append. reflexivity.
  - destruct (is_space c); [exact IH|].
    apply (rstrip_append_spaces (String c x) m).
Qed.

Lemma strip_padded (n m : nat) (x : string) : strip (spaces n ++ x ++ spaces m) = strip x.
Proof.
  unfold strip at 1. rewrite lstrip_spaces_append.
  apply (strip_append_spaces x m).
Qed.

End Normalization.

(** C10.  For every input, [handle_smalltalk] gives the same result on
    the input and on its lower-cased, trimmed form.  So the result is
    the same for any two inputs with the same lower-cased form: it does
    not change when the input is lower-cased, nor, for an ASCII input,
    when it is upper-cased; and it does not change when the input is
    trimmed or padded with spaces on either side. *)
Theorem handle_smalltalk_normalizes_input :
  forall s : string,
    handle_smalltalk s = handle_smalltalk (strip (lower s)) /\
    handle_smalltalk (lower s) = handle_smalltalk s /\
    (forall s' : string, lower s' = lower s -> handle_smalltalk s' = handle_smalltalk s) /\
    (is_ascii s = true -> handle_smalltalk (upper s) = handle_smalltalk s) /\
    handle_smalltalk (strip s) = handle_smalltalk s /\
    (forall n m : nat, handle_smalltalk (spaces n ++ s ++ spaces m) = handle_smalltalk s).
Proof.
  intros s. split; [|split; [|split; [|split; [|split]]]].
  - apply handle_smalltalk_same_normal_form. symmetry. apply normalize_text_idem.
  - apply handle_smalltalk_same_normal_form. now rewrite lower_idem.
  - intros s' H. apply handle_smalltalk_same_normal_form. now rewrite H.
  - intros H. apply handle_smalltalk_same_normal_form. now rewrite lower_upper.
  - apply handle_smalltalk_same_normal_form. now rewrite lower_strip, strip_idem.
  - intros n m. apply handle_smalltalk_same_normal_form.
    rewrite !lower_append, !lower_spaces. apply strip_padded.
Qed.

Lemma handle_smalltalk_normalizes_input_witness :
  handle_smalltalk "THANKS A LOT" = handle_smalltalk "thanks a lot" /\
  handle_smalltalk "ThAnKs a LoT" = handle_smalltalk "thanks a lot" /\
  handle_smalltalk "  thanks a lot " = handle_smalltalk "thanks a lot".
Proof.
  split; [|split].
  - exact (proj1 (proj2 (proj2 (proj2 (handle_smalltalk_normalizes_input "thanks a lot"))))
             eq_refl).
  - exact (proj1 (proj2 (proj2 (handle_smalltalk_normalizes_input "thanks a lot")))
             "ThAnKs a LoT" eq_refl).
  - exact (proj2 (proj2 (proj2 (proj2 (proj2
             (handle_smalltalk_normalizes_input "thanks a lot"))))) 2%nat 1%nat).
Defined.

(** ** The prompt builder *)

(** C8.  For every query and context, [build_messages] is the system
    message, then the few-shot sequence [FEWSHOT], the same for all
    queries, then one user message; the system message is the only one
    with that role, and the content of the final user message contains
    the query, the context and the non-diagnostic reminder. *)
Theorem build_messages_structure :
  forall query context : string,
    build_messages query context
    = ({| role := system; content := SYSTEM_PROMPT |} :: FEWSHOT
       ++ [user_turn query context])%list /\
    count_role system (build_messages query context) = 1%nat /\
    firstn (List.length FEWSHOT) (tl (build_messages query context)) = FEWSHOT /\
    skipn (List.length FEWSHOT) (tl (build_messages query context))
    = [user_turn query context] /\
    role (user_turn query context) = user /\
    is_substring query (content (user_turn query context)) /\
    is_substring context (content (user_turn query context)) /\
    is_substring NON_DIAGNOSTIC_PREFACE (content (user_turn query context)).
Proof.
  intros query context.
  split; [reflexivity|]. split; [reflexivity|]. split; [reflexivity|].
  split; [reflexivity|]. split; [reflexivity|].
  unfold user_turn, content.
  split; [|split].
  - exists "Caregiver question: ". eexists. reflexivity.
  - exists ("Caregiver question: " ++ query ++ nl ++ nl
            ++ "Context (use to ground your answer):" ++ nl).
    eexists. rewrite !append_assoc. reflexivity.
  - exists ("Caregiver question: " ++ query ++ nl ++ nl
            ++ "Context (use to ground your answer):" ++ nl ++ context ++ nl ++ nl
            ++ "Remember: "), "".
    rewrite !append_assoc, append_empty_r. reflexivity.
Qed.

(** ** The pipeline *)

Section Pipeline.

Variable env : Env.

Lemma for_each_silent {A B : Type} (f : A -> M B) (l : list A) :
  (forall x, trace (f x) = []) -> trace (for_each f l) = [].
Proof.
  intros Hf. induction l as [|x l IH]; simpl; [reflexivity|].
  specialize (Hf x). unfold bind, ret.
  destruct (f x) as [t [e | y]]; simpl in Hf; subst t; [reflexivity|].
  destruct (for_each f l) as [t' [e | ys]]; simpl in IH; subst t'; reflexivity.
Qed.

Lemma hit_of_silent (records : list ChunkRecord) (p : Z * R) :
  trace (hit_of records p) = [].
Proof.
  destruct p as [idx sc]. unfold hit_of, bind, lift, ret.
  destruct (py_index records idx); reflexivity.
Qed.

Lemma for_each_hit_trace (records : list ChunkRecord) (l : list (Z * R)) :
  trace (for_each (hit_of records) l) = [].
Proof. apply for_each_silent, hit_of_silent. Qed.

(** Retrieval calls the encoder once and the index once, whatever the
    outcome. *)
Lemma retrieve_trace (query : string) (top_k : Z) :
  trace (retrieve env query top_k) = [EvEncode [query] false; EvSearch top_k].
Proof.
  unfold retrieve, embed, bind, emit, ret, lift. simpl.
  destruct (index_search env _ top_k) as [e | [D Ix]]; [reflexivity|].
  pose proof (for_each_hit_trace (meta env) (combine Ix D)) as H.
  destruct (for_each _ _) as [t r]. simpl in H. subst t. reflexivity.
Qed.

Lemma retrieve_pair (query : string) (top_k : Z) :
  retrieve env query top_k
  = ([EvEncode [query] false; EvSearch top_k], outcome (retrieve env query top_k)).
Proof.
  rewrite <- retrieve_trace. unfold trace, outcome.
  now destruct (retrieve env query top_k).
Qed.

(** [embed] hands back what the encoder computed, as it is. *)
Lemma embed_raw (text : string) :
  embed env text = ([EvEncode [text] false], inr (forward env text)).
Proof. reflexivity. Qed.

(** A smalltalk answer is returned at once. *)
Lemma chat_smalltalk (req : ChatRequest) (res : ChatResponse) :
  handle_smalltalk (query req) = Some res -> chat env req = ret res.
Proof.
  intros H. unfold chat. destruct (check_red_flags (query req)).
  now rewrite H.
Qed.

Lemma check_red_flags_pair (text : string) :
  check_red_flags text
  = (fst (check_red_flags text),
     if fst (check_red_flags text) then CRISIS_MSG else "").
Proof.
  unfold check_red_flags. rewrite scan_red_flags_any.
  now destruct (any _ RED_FLAGS).
Qed.

(** Every other query goes through retrieval and generation. *)
Lemma chat_fallthrough (req : ChatRequest) :
  handle_smalltalk (query req) = None ->
  chat env req =
  (hits <- retrieve env (query req) (TOP_K env) ;;
   answer <- call_llm env (build_messages (query req) (format_context hits)) ;;
   ret {| answer := with_preface (query req) answer;
          citations := map citation_of hits |}).
Proof.
  intros H. unfold chat, with_preface.
  rewrite (check_red_flags_pair (query req)), H. simpl.
  destruct (fst (check_red_flags (query req))); reflexivity.
Qed.

Lemma call_openai_trace (messages : list Message) :
  trace (call_openai env messages) = [EvHttpPost OPENAI_URL].
Proof.
  unfold call_openai, bind, emit, lift, raise_for_status, content_of, ret, raise.
  simpl. destruct (http_post env _) as [e | r]; [reflexivity|].
  destruct (is_success r); [|reflexivity].
  destruct (completion r); reflexivity.
Qed.

Lemma call_openai_status_error (messages : list Message) (r : HttpResponse) :
  http_post env (openai_request env messages) = inr r ->
  is_success r = false ->
  call_openai env messages = ([EvHttpPost OPENAI_URL], inl (HTTPStatusError (status_code r))).
Proof.
  intros Hr Hs.
  unfold call_openai, bind, emit, lift, raise_for_status, ret, raise.
  simpl. rewrite Hr, Hs. reflexivity.
Qed.

Lemma call_azure_trace (messages : list Message) :
  trace (Server.call_azure env messages) = [EvHttpPost (Server.AZURE_URL env)].
Proof.
  unfold Server.call_azure, bind, emit, lift, raise_for_status, content_of, ret, raise.
  simpl. destruct (http_post env _) as [e | r]; [reflexivity|].
  destruct (is_success r); [|reflexivity].
  destruct (completion r); reflexivity.
Qed.

Lemma call_ollama_trace (messages : list Message) :
  trace (call_ollama env messages) = [EvOllamaChat (get_or (OLLAMA_MODEL env) "")].
Proof.
  unfold call_ollama, bind, emit, lift, content_of, ret, raise.
  simpl. destruct (ollama_chat env _ messages) as [e | [c|]]; reflexivity.
Qed.

Lemma call_azure_status_error (messages : list Message) (r : HttpResponse) :
  http_post env (Server.azure_request env messages) = inr r ->
  is_success r = false ->
  Server.call_azure env messages
  = ([EvHttpPost (Server.AZURE_URL env)], inl (HTTPStatusError (status_code r))).
Proof.
  intros Hr Hs.
  unfold Server.call_azure, bind, emit, lift, raise_for_status, ret, raise.
  simpl. rewrite Hr, Hs. reflexivity.
Qed.

(** A request that does not complete, or a failure inside the Ollama
    runtime, is raised to the caller as well. *)
Lemma call_openai_transport_error (messages : list Message) (e : exn) :
  http_post env (openai_request env messages) = inl e ->
  call_openai env messages = ([EvHttpPost OPENAI_URL], inl e).
Proof.
  intros Hr. unfold call_openai, bind, emit, lift. simpl. now rewrite Hr.
Qed.

Lemma call_ollama_error (messages : list Message) (e : exn) :
  ollama_chat env (get_or (OLLAMA_MODEL env) "") messages = inl e ->
  call_ollama env messages = ([EvOllamaChat (get_or (OLLAMA_MODEL env) "")], inl e).
Proof.
  intros Hr. unfold call_ollama, bind, emit, lift. simpl. now rewrite Hr.
Qed.

(** In [server.py] the Azure deployment stands between the two: with no
    OpenAI key and a complete Azure configuration the Azure endpoint is
    called, the Ollama model is not. *)
Lemma server_call_llm_azure (messages : list Message) :
  truthy (OPENAI_API_KEY env) = false ->
  Server.azure_configured env = true ->
  Server.call_llm env messages = Server.call_azure env messages /\
  trace (Server.call_llm env messages) = [EvHttpPost (Server.AZURE_URL env)].
Proof.
  intros H1 H2. unfold Server.call_llm. rewrite H1, H2.
  split; [reflexivity | apply call_azure_trace].
Qed.

End Pipeline.

(** ** Loops and list indexing *)

Section Loops.

Context {A B : Type} (f : A -> M B).

Lemma for_each_cons_ok (x : A) (l : list A) (y : B) (ys : list B) :
  outcome (f x) = inr y ->
  outcome (for_each f l) = inr ys ->
  outcome (for_each f (x :: l)) = inr (y :: ys).
Proof.
  intros Hx Hl. simpl. unfold bind, ret.
  destruct (f x) as [t r]. simpl in Hx. subst r.
  destruct (for_each f l) as [t' r']. simpl in Hl. subst r'. reflexivity.
Qed.

Lemma for_each_cons_raise (x : A) (l : list A) (e : exn) :
  outcome (f x) = inl e -> outcome (for_each f (x :: l)) = inl e.
Proof.
  intros Hx. simpl. unfold bind.
  destruct (f x) as [t r]. simpl in Hx. subst r. reflexivity.
Qed.

Lemma for_each_app_ok (l1 l2 : list A) (ys1 ys2 : list B) :
  outcome (for_each f l1) = inr ys1 ->
  outcome (for_each f l2) = inr ys2 ->
  outcome (for_each f (l1 ++ l2)) = inr (ys1 ++ ys2)%list.
Proof.
  revert ys1. induction l1 as [|x l1 IH]; intros ys1 H1 H2.
  - simpl in H1. injection H1 as <-. exact H2.
  - simpl in H1. unfold bind, ret in H1.
    destruct (f x) as [t [e | y]] eqn:Ex; [discriminate|].
    destruct (for_each f l1) as [t' [e | ys]] eqn:El; [discriminate|].
    simpl in H1. injection H1 as <-.
    change ((x :: l1) ++ l2)%list with (x :: (l1 ++ l2))%list.
    change ((y :: ys) ++ ys2)%list with (y :: (ys ++ ys2))%list.
    apply for_each_cons_ok; [now rewrite Ex | now apply IH].
Qed.

Lemma for_each_all_ok (l : list A) :
  Forall (fun x => exists y, outcome (f x) = inr y) l ->
  exists ys, outcome (for_each f l) = inr ys /\ List.length ys = List.length l.
Proof.
  induction 1 as [|x l [y Hy] _ [ys [Hys Hlen]]].
  - exists []. split; reflexivity.
  - exists (y :: ys). split; [now apply for_each_cons_ok | simpl; now rewrite Hlen].
Qed.

Lemma for_each_repeat_ok (x : A) (y : B) (n : nat) :
  outcome (f x) = inr y ->
  outcome (for_each f (repeat x n)) = inr (repeat y n).
Proof.
  intros Hx. induction n as [|n IH]; [reflexivity|].
  simpl repeat. now apply for_each_cons_ok.
Qed.

End Loops.

Section Indexing.

Context {A : Type}.

Lemma py_index_in_range (xs : list A) (i : Z) :
  (0 <= i < Z.of_nat (List.length xs))%Z -> exists x, py_index xs i = inr x.
Proof.
  intros Hi. unfold py_index.
  destruct (i <? 0)%Z eqn:E; [apply Z.ltb_lt in E; lia|].
  destruct (orb _ _) eqn:E2.
  - apply orb_true_iff in E2. destruct E2 as [E2 | E2];
      [apply Z.ltb_lt in E2 | apply Z.leb_le in E2]; lia.
  - destruct (nth_error xs (Z.to_nat i)) eqn:E3; [eauto|].
    apply nth_error_None in E3. lia.
Qed.

(** [xs[-1]] is the last element of a list that has one. *)
Lemma py_index_minus_one (front : list A) (last : A) :
  py_index (front ++ [last]) (-1) = inr last.
Proof.
  unfold py_index. rewrite length_app. simpl List.length.
  change (-1 <? 0)%Z with true. cbv iota.
  destruct (orb _ _) eqn:E2.
  - apply orb_true_iff in E2. destruct E2 as [E2 | E2];
      [apply Z.ltb_lt in E2 | apply Z.leb_le in E2]; lia.
  - replace (Z.to_nat (-1 + Z.of_nat (List.length front + 1))) with (List.length front) by lia.
    rewrite nth_error_app2 by lia. now rewrite Nat.sub_diag.
Qed.

(** On the empty list every index is out of range. *)
Lemma py_index_empty (i : Z) : py_index (@nil A) i = inl IndexError.
Proof.
  unfold py_index. simpl List.length.
  destruct (i <? 0)%Z eqn:E.
  - apply Z.ltb_lt in E. destruct (orb _ _) eqn:E2; [reflexivity|].
    apply orb_false_iff in E2. destruct E2 as [E2 _]. apply Z.ltb_ge in E2. lia.
  - apply Z.ltb_ge in E. destruct (orb _ _) eqn:E2; [reflexivity|].
    apply orb_false_iff in E2. destruct E2 as [_ E2]. apply Z.leb_gt in E2. lia.
Qed.

End Indexing.

(** ** Retrieval against an index that keeps the FAISS contract *)

Section Retrieval.

Variable env : Env.

Lemma hit_of_in_range (records : list ChunkRecord) (idx : Z) (sc : R) :
  (0 <= idx < Z.of_nat (List.length records))%Z ->
  exists h, outcome (hit_of records (idx, sc)) = inr h.
Proof.
  intros Hi. destruct (py_index_in_range records idx Hi) as [rec Hrec].
  unfold hit_of, bind, lift, ret. rewrite Hrec. simpl. eauto.
Qed.

Lemma hit_of_padding (front : list ChunkRecord) (last : ChunkRecord) :
  outcome (hit_of (front ++ [last]) ((-1)%Z, (- FLT_MAX)%R)) = inr (padding_hit last).
Proof.
  unfold hit_of, bind, lift, ret. rewrite py_index_minus_one. reflexivity.
Qed.

Lemma combine_split_at {X Y : Type} (n : nat) (xs : list X) (ys : list Y) :
  combine xs ys = (combine (firstn n xs) (firstn n ys) ++ combine (skipn n xs) (skipn n ys))%list.
Proof.
  revert xs ys. induction n as [|n IH]; intros xs ys; [reflexivity|].
  destruct xs as [|x xs]; [reflexivity|].
  destruct ys as [|y ys]; simpl.
  - now destruct (skipn n xs).
  - now rewrite <- IH.
Qed.

Lemma combine_repeat {X Y : Type} (x : X) (y : Y) (n : nat) :
  combine (repeat x n) (repeat y n) = repeat (x, y) n.
Proof. induction n as [|n IH]; simpl; [reflexivity | now rewrite IH]. Qed.

Lemma Forall_combine_l {X Y : Type} (P : X -> Prop) (xs : list X) (ys : list Y) :
  Forall P xs -> Forall (fun p => P (fst p)) (combine xs ys).
Proof.
  intros H. revert ys. induction H as [|x xs Hx _ IH]; intros ys; [constructor|].
  destruct ys as [|y ys]; constructor; [exact Hx | apply IH].
Qed.

(** The outcome of the loop of [retrieve] on a well-formed search result
    over a corpus whose last record is [last]. *)
Lemma hits_of_search_result (front : list ChunkRecord) (last : ChunkRecord)
    (k : Z) (D : list R) (Ix : list Z) :
  faiss_result_ok (List.length (front ++ [last])) k D Ix ->
  exists hits,
    outcome (for_each (hit_of (front ++ [last])) (combine Ix D)) = inr hits /\
    List.length hits = Z.to_nat k /\
    skipn (List.length (front ++ [last])) hits
    = repeat (padding_hit last) (Z.to_nat k - List.length (front ++ [last])).
Proof.
  set (records := (front ++ [last])%list). set (n := List.length records).
  intros (HD & HI & Hvalid & HpadI & HpadD).
  rewrite (combine_split_at n Ix D), HpadI, HpadD, combine_repeat.
  destruct (for_each_all_ok (hit_of records) (combine (firstn n Ix) (firstn n D)))
    as [ys1 [Hys1 Hlen1]].
  { eapply Forall_impl; [|apply (Forall_combine_l _ _ (firstn n D) Hvalid)].
    intros [idx sc] Hi. now apply hit_of_in_range. }
  pose proof (for_each_repeat_ok (hit_of records) _ _ (Z.to_nat k - n)
                (hit_of_padding front last)) as Hys2.
  exists (ys1 ++ repeat (padding_hit last) (Z.to_nat k - n))%list.
  rewrite length_combine, !length_firstn, HI, HD in Hlen1.
  split; [now apply for_each_app_ok|]. split.
  - rewrite length_app, repeat_length, Hlen1. lia.
  - destruct (Nat.le_gt_cases (Z.to_nat k) n) as [Hle | Hgt].
    + replace (Z.to_nat k - n)%nat with 0%nat by lia. simpl.
      rewrite app_nil_r. apply skipn_all2. lia.
    + rewrite skipn_app.
      replace (n - List.length ys1)%nat with 0%nat by lia.
      rewrite skipn_all2 by lia. reflexivity.
Qed.

(** With a non-empty corpus and a positive [top_k], retrieval returns
    [top_k] hits, whatever the size of the corpus. *)
Lemma retrieve_under_contract (query : string) (top_k : Z)
    (front : list ChunkRecord) (last : ChunkRecord) :
  meta env = (front ++ [last])%list ->
  faiss_search_contract (List.length (meta env)) (index_search env) ->
  (0 < top_k)%Z ->
  exists hits,
    outcome (retrieve env query top_k) = inr hits /\
    List.length hits = Z.to_nat top_k /\
    skipn (List.length (meta env)) hits
    = repeat (padding_hit last) (Z.to_nat top_k - List.length (meta env)).
Proof.
  intros Hmeta Hc Hk.
  destruct (Hc (forward env query) top_k Hk) as (D & Ix & Hs & Hok).
  rewrite Hmeta in Hok |- *.
  destruct (hits_of_search_result front last top_k D Ix Hok) as (hits & Hh & Hlen & Hpad).
  exists hits. split; [|split; assumption].
  unfold retrieve, embed, bind, emit, ret, lift. simpl.
  rewrite Hs, Hmeta. simpl.
  destruct (for_each _ _) as [t r]. simpl in Hh. now subst r.
Qed.

(** With an empty metadata sequence the first padding label raises. *)
Lemma retrieve_empty_corpus (query : string) (top_k : Z) :
  meta env = [] ->
  faiss_search_contract 0 (index_search env) ->
  (0 < top_k)%Z ->
  outcome (retrieve env query top_k) = inl IndexError.
Proof.
  intros Hmeta Hc Hk.
  destruct (Hc (forward env query) top_k Hk) as (D & Ix & Hs & HD & HI & _).
  unfold retrieve, embed, bind, emit, ret, lift. simpl.
  rewrite Hs, Hmeta. simpl.
  destruct Ix as [|i Ix]; [simpl in HI; lia|].
  destruct D as [|d D]; [simpl in HD; lia|].
  pose proof (for_each_cons_raise (hit_of []) (i, d) (combine Ix D) IndexError) as H.
  destruct (for_each _ _) as [t r]. simpl in H. rewrite H; [reflexivity|].
  unfold hit_of, bind, lift. now rewrite py_index_empty.
Qed.

End Retrieval.

(** ** The exhaustive index keeps the contract *)

Section FlatIndex.

Lemma insert_desc_length (x : R * Z) (l : list (R * Z)) :
  List.length (insert_desc x l) = S (List.length l).
Proof.
  induction l as [|y r IH]; simpl; [reflexivity|].
  destruct (Rle_dec (fst y) (fst x)); simpl; [reflexivity | now rewrite IH].
Qed.

Lemma insert_desc_Forall (P : R * Z -> Prop) (x : R * Z) (l : list (R * Z)) :
  P x -> Forall P l -> Forall P (insert_desc x l).
Proof.
  intros Hx Hl. induction Hl as [|y r Hy Hr IH]; simpl.
  - constructor; [exact Hx | constructor].
  - destruct (Rle_dec (fst y) (fst x)).
    + constructor; [exact Hx | constructor; assumption].
    + constructor; assumption.
Qed.

Lemma sort_desc_length (l : list (R * Z)) :
  List.length (fold_right insert_desc [] l) = List.length l.
Proof.
  induction l as [|x l IH]; simpl; [reflexivity|].
  now rewrite insert_desc_length, IH.
Qed.

Lemma sort_desc_Forall (P : R * Z -> Prop) (l : list (R * Z)) :
  Forall P l -> Forall P (fold_right insert_desc [] l).
Proof.
  induction 1 as [|x l Hx _ IH]; simpl; [constructor|].
  now apply insert_desc_Forall.
Qed.

Lemma ranked_length (xb : list vector) (q : vector) :
  List.length (ranked xb q) = List.length xb.
Proof.
  unfold ranked. rewrite sort_desc_length, length_combine, !length_map, length_seq.
  apply Nat.min_id.
Qed.

Lemma ranked_labels (xb : list vector) (q : vector) :
  Forall (fun p => (0 <= snd p < Z.of_nat (List.length xb))%Z) (ranked xb q).
Proof.
  unfold ranked. apply sort_desc_Forall, Forall_forall.
  intros [d i] Hin. apply in_combine_r in Hin.
  apply in_map_iff in Hin. destruct Hin as [j [<- Hj]].
  apply in_seq in Hj. simpl. lia.
Qed.

Lemma Forall_firstn_keeps {X : Type} (P : X -> Prop) (m : nat) (l : list X) :
  Forall P l -> Forall P (firstn m l).
Proof.
  intros H. revert m. induction H as [|x l Hx _ IH]; intros [|m]; simpl;
    constructor; auto.
Qed.

Lemma IndexFlatIP_contract (xb : list vector) :
  faiss_search_contract (List.length xb) (IndexFlatIP_search xb).
Proof.
  intros q k Hk. unfold IndexFlatIP_search.
  destruct (k <=? 0)%Z eqn:E; [apply Z.leb_le in E; lia|].
  set (n := List.length xb). set (K := Z.to_nat k).
  pose proof (ranked_length xb q) as Hlen. fold n in Hlen.
  pose proof (ranked_labels xb q) as Hlab. fold n in Hlab.
  set (top := firstn K (ranked xb q)).
  assert (Htop : List.length top = Nat.min K n)
    by (unfold top; now rewrite length_firstn, Hlen).
  set (pad := repeat ((- FLT_MAX)%R, (-1)%Z) (K - List.length top)).
  eexists _, _. split; [reflexivity|].
  assert (Hres : List.length (top ++ pad) = K)
    by (unfold pad; rewrite length_app, repeat_length, Htop; lia).
  unfold faiss_result_ok. fold K.
  rewrite !length_map, Hres. split; [reflexivity|]. split; [reflexivity|].
  destruct (Nat.le_gt_cases K n) as [Hle | Hgt].
  - assert (Hpad : pad = []) by (unfold pad; rewrite Htop;
      replace (K - Nat.min K n)%nat with 0%nat by lia; reflexivity).
    rewrite Hpad, app_nil_r.
    replace (K - n)%nat with 0%nat by lia. simpl repeat.
    rewrite firstn_all2 by (rewrite length_map; lia).
    rewrite !skipn_all2 by (rewrite length_map; lia).
    split; [|split; reflexivity].
    apply Forall_map. unfold top. now apply Forall_firstn_keeps.
  - assert (Etop : top = ranked xb q) by (unfold top; apply firstn_all2; lia).
    assert (Epad : pad = repeat ((- FLT_MAX)%R, (-1)%Z) (K - n))
      by (unfold pad; rewrite Htop; f_equal; lia).
    rewrite Etop, Epad, !map_app, !map_repeat.
    change (snd ((- FLT_MAX)%R, (-1)%Z)) with (-1)%Z.
    change (fst ((- FLT_MAX)%R, (-1)%Z)) with (- FLT_MAX)%R.
    rewrite firstn_app, !skipn_app, !length_map, Hlen, Nat.sub_diag.
    rewrite firstn_all2 by (rewrite length_map; lia).
    rewrite (skipn_all2 (map snd (ranked xb q))) by (rewrite length_map; lia).
    rewrite (skipn_all2 (map fst (ranked xb q))) by (rewrite length_map; lia).
    rewrite firstn_O, app_nil_r, !skipn_O.
    split; [apply Forall_map; exact Hlab|].
    split; reflexivity.
Qed.

End FlatIndex.

(** ** The claims about retrieval and the endpoint *)

(** C2.  What [retrieve] does when [top_k] exceeds the corpus size:
    against an index that keeps the FAISS contract and a non-empty
    metadata sequence it returns [top_k] hits, more than the corpus
    holds, and every hit past the corpus size is built from the last
    record with the padding score. *)
Theorem retrieve_beyond_corpus_size :
  forall (env : Env) (query : string) (top_k : Z)
         (front : list ChunkRecord) (last : ChunkRecord),
    meta env = (front ++ [last])%list ->
    faiss_search_contract (List.length (meta env)) (index_search env) ->
    (Z.of_nat (List.length (meta env)) < top_k)%Z ->
    exists hits,
      outcome (retrieve env query top_k) = inr hits /\
      List.length hits = Z.to_nat top_k /\
      (List.length (meta env) < List.length hits)%nat /\
      skipn (List.length (meta env)) hits
      = repeat (padding_hit last) (Z.to_nat top_k - List.length (meta env)).
Proof.
  intros env query top_k front last Hmeta Hc Hk.
  destruct (retrieve_under_contract env query top_k front last Hmeta Hc)
    as (hits & Hh & Hlen & Hpad); [lia|].
  exists hits. repeat split; try assumption. lia.
Qed.

Lemma retrieve_beyond_corpus_size_witness :
  exists hits,
    outcome (retrieve demo_env demo_query 5) = inr hits /\
    List.length hits = 5%nat /\
    (1 < List.length hits)%nat /\
    skipn 1 hits = repeat (padding_hit sleep_record) 4.
Proof.
  exact (retrieve_beyond_corpus_size demo_env demo_query 5
           [] sleep_record eq_refl (IndexFlatIP_contract _) eq_refl).
Defined.

(** On the corpus of one chunk, [top_k = 5] gives five hits: the chunk
    and four copies of it with the padding score. *)
Lemma retrieve_demo_five_hits :
  retrieve demo_env demo_query 5
  = ([EvEncode [demo_query] false; EvSearch 5], inr demo_hits) /\
  List.length demo_hits = 5%nat /\
  List.length (meta demo_env) = 1%nat.
Proof. repeat split. Qed.

(** With no record at all the same request raises. *)
Lemma retrieve_empty_demo :
  outcome (retrieve
             {| TOP_K := 5; MAX_TOKENS := 700; OPENAI_API_KEY := None;
                OPENAI_MODEL := "gpt-4o-mini"; AZURE_KEY := None;
                AZURE_ENDPOINT := None; AZURE_DEPLOYMENT := None;
                OLLAMA_MODEL := None; forward := raw_forward;
                index_search := IndexFlatIP_search [];
                meta := [];
                http_post := fun _ => inl TransportError;
                ollama_chat := fun _ _ => inl LibraryError |}
             demo_query 5)
  = inl IndexError.
Proof. reflexivity. Qed.

(** C1.  A query that is both flagged and smalltalk: "hi, he just had a
    seizure" is flagged by the safety filter and is a greeting, and the
    endpoint answers with the greeting alone, which is not the greeting
    with the crisis message in front. *)
Theorem chat_smalltalk_without_crisis_preface :
  forall env : Env,
    check_red_flags "hi, he just had a seizure" = (true, CRISIS_MSG) /\
    handle_smalltalk "hi, he just had a seizure"
    = Some {| answer := GREETING_ANSWER; citations := [] |} /\
    chat env {| query := "hi, he just had a seizure" |}
    = ([], inr {| answer := GREETING_ANSWER; citations := [] |}) /\
    GREETING_ANSWER <> CRISIS_MSG ++ nl ++ nl ++ GREETING_ANSWER.
Proof.
  intros env. split; [reflexivity|]. split; [reflexivity|]. split.
  - apply (chat_smalltalk env {| query := "hi, he just had a seizure" |}). reflexivity.
  - discriminate.
Qed.

(** C6.  With no OpenAI key and no Ollama model, [call_llm] returns the
    no-provider warning, the text written out below, and calls nothing;
    and for a query that is not smalltalk and whose retrieval returned
    [hits], the endpoint answers with that warning (behind the crisis
    message and a blank line when the query is flagged) and with one
    citation per hit, in the order of the hits: the title, authors,
    year, url, source file and chunk id of the hit's record, each absent
    where the record has none, and the hit's score; it has called the
    encoder and the index only. *)
Theorem no_provider_warning_with_citations :
  forall (env : Env) (messages : list Message) (req : ChatRequest) (hits : list Hit),
    truthy (OPENAI_API_KEY env) = false ->
    truthy (OLLAMA_MODEL env) = false ->
    handle_smalltalk (query req) = None ->
    outcome (retrieve env (query req) (TOP_K env)) = inr hits ->
    call_llm env messages
    = ([], inr "⚠️ No LLM provider configured. Please set OPENAI_API_KEY or OLLAMA_MODEL in .env.") /\
    chat env req
    = ([EvEncode [query req] false; EvSearch (TOP_K env)],
       inr {| answer :=
                (if fst (check_red_flags (query req))
                 then CRISIS_MSG ++ nl ++ nl
                      ++ "⚠️ No LLM provider configured. Please set OPENAI_API_KEY or OLLAMA_MODEL in .env."
                 else "⚠️ No LLM provider configured. Please set OPENAI_API_KEY or OLLAMA_MODEL in .env.");
              citations :=
                map (fun h =>
                       {| c_title := title (hit_meta h);
                          c_authors := authors (hit_meta h);
                          c_year := year (hit_meta h);
                          c_url := url (hit_meta h);
                          c_source_file := source_file (hit_meta h);
                          c_chunk_id := chunk_id (hit_meta h);
                          c_score := score h |})
                    hits |}).
Proof.
  intros env messages req hits Hk Ho Hs Hr.
  assert (Hcall : forall msgs, call_llm env msgs = ([], inr NO_PROVIDER_WARNING))
    by (intros msgs; unfold call_llm; now rewrite Hk, Ho).
  split; [apply Hcall|].
  rewrite (chat_fallthrough env req Hs), retrieve_pair, Hr.
  unfold bind. rewrite Hcall. reflexivity.
Qed.

Lemma no_provider_warning_with_citations_witness :
  call_llm demo_env []
  = ([], inr "⚠️ No LLM provider configured. Please set OPENAI_API_KEY or OLLAMA_MODEL in .env.") /\
  chat demo_env {| query := demo_query |}
  = ([EvEncode [demo_query] false; EvSearch 5],
     inr {| answer :=
              "⚠️ No LLM provider configured. Please set OPENAI_API_KEY or OLLAMA_MODEL in .env.";
            citations :=
              [ {| c_title := Some "Sleep disorders in Down Syndrome";
                   c_authors := Some "Breslin et al.";
                   c_year := Some "2014";
                   c_url := None;
                   c_source_file := Some "sleep.csv";
                   c_chunk_id := Some 0%Z;
                   c_score := dot (raw_forward demo_query) (normalize (raw_forward "sleep")) |};
                {| c_title := Some "Sleep disorders in Down Syndrome";
                   c_authors := Some "Breslin et al.";
                   c_year := Some "2014";
                   c_url := None;
                   c_source_file := Some "sleep.csv";
                   c_chunk_id := Some 0%Z;
                   c_score := (- FLT_MAX)%R |};
                {| c_title := Some "Sleep disorders in Down Syndrome";
                   c_authors := Some "Breslin et al.";
                   c_year := Some "2014";
                   c_url := None;
                   c_source_file := Some "sleep.csv";
                   c_chunk_id := Some 0%Z;
                   c_score := (- FLT_MAX)%R |};
                {| c_title := Some "Sleep disorders in Down Syndrome";
                   c_authors := Some "Breslin et al.";
                   c_year := Some "2014";
                   c_url := None;
                   c_source_file := Some "sleep.csv";
                   c_chunk_id := Some 0%Z;
                   c_score := (- FLT_MAX)%R |};
                {| c_title := Some "Sleep disorders in Down Syndrome";
                   c_authors := Some "Breslin et al.";
                   c_year := Some "2014";
                   c_url := None;
                   c_source_file := Some "sleep.csv";
                   c_chunk_id := Some 0%Z;
                   c_score := (- FLT_MAX)%R |} ] |}).
Proof.
  exact (no_provider_warning_with_citations demo_env []
           {| query := demo_query |} demo_hits eq_refl eq_refl eq_refl eq_refl).
Defined.

(** ** Provider selection and provider errors *)

Section Gateway.

Variable env : Env.

(** Which collaborator [call_llm] calls, by configuration alone: always
    exactly one call, or none when nothing is configured. *)
Lemma call_llm_trace (messages : list Message) :
  trace (call_llm env messages)
  = if truthy (OPENAI_API_KEY env) then [EvHttpPost OPENAI_URL]
    else if truthy (OLLAMA_MODEL env) then [EvOllamaChat (get_or (OLLAMA_MODEL env) "")]
    else [].
Proof.
  unfold call_llm.
  destruct (truthy (OPENAI_API_KEY env)); [apply call_openai_trace|].
  destruct (truthy (OLLAMA_MODEL env)); [apply call_ollama_trace | reflexivity].
Qed.

Lemma server_call_llm_trace (messages : list Message) :
  trace (Server.call_llm env messages)
  = if truthy (OPENAI_API_KEY env) then [EvHttpPost OPENAI_URL]
    else if Server.azure_configured env then [EvHttpPost (Server.AZURE_URL env)]
    else if truthy (OLLAMA_MODEL env) then [EvOllamaChat (get_or (OLLAMA_MODEL env) "")]
    else [].
Proof.
  unfold Server.call_llm.
  destruct (truthy (OPENAI_API_KEY env)); [apply call_openai_trace|].
  destruct (Server.azure_configured env); [apply call_azure_trace|].
  destruct (truthy (OLLAMA_MODEL env)); [apply call_ollama_trace | reflexivity].
Qed.

(** The legacy endpoint has no smalltalk step. *)
Lemma server_chat_unfold (req : ChatRequest) :
  Server.chat env req =
  (hits <- retrieve env (query req) (TOP_K env) ;;
   answer <- Server.call_llm env (build_messages (query req) (format_context hits)) ;;
   ret {| answer := with_preface (query req) answer;
          citations := map citation_of hits |}).
Proof.
  unfold Server.chat, with_preface.
  rewrite (check_red_flags_pair (query req)). simpl.
  destruct (fst (check_red_flags (query req))); reflexivity.
Qed.

End Gateway.

(** C7.  [call_llm] chooses by configuration: with an OpenAI key it posts
    to the OpenAI endpoint, once, whatever else is configured; without
    one and with an Ollama model it calls Ollama, once.  When the key is
    set and the endpoint answers with a status outside 200..299,
    [call_llm] raises the status error after that one request, without
    calling Ollama, and the endpoint [chat] raises the same error for a
    query that reached generation; the same holds for [call_llm] and
    [chat] of [server.py]. *)
Theorem provider_precedence_and_status_error :
  forall (env : Env) (messages : list Message) (req : ChatRequest)
         (hits : list Hit) (r : HttpResponse),
    truthy (OPENAI_API_KEY env) = true ->
    (forall rq, http_post env rq = inr r) ->
    is_success r = false ->
    handle_smalltalk (query req) = None ->
    outcome (retrieve env (query req) (TOP_K env)) = inr hits ->
    (forall (env' : Env) (msgs : list Message),
        (truthy (OPENAI_API_KEY env') = true ->
         call_llm env' msgs = call_openai env' msgs /\
         trace (call_llm env' msgs) = [EvHttpPost OPENAI_URL]) /\
        (truthy (OPENAI_API_KEY env') = false ->
         truthy (OLLAMA_MODEL env') = true ->
         call_llm env' msgs = call_ollama env' msgs /\
         trace (call_llm env' msgs) = [EvOllamaChat (get_or (OLLAMA_MODEL env') "")])) /\
    call_llm env messages
    = ([EvHttpPost OPENAI_URL], inl (HTTPStatusError (status_code r))) /\
    chat env req
    = ([EvEncode [query req] false; EvSearch (TOP_K env); EvHttpPost OPENAI_URL],
       inl (HTTPStatusError (status_code r))) /\
    Server.call_llm env messages
    = ([EvHttpPost OPENAI_URL], inl (HTTPStatusError (status_code r))) /\
    Server.chat env req
    = ([EvEncode [query req] false; EvSearch (TOP_K env); EvHttpPost OPENAI_URL],
       inl (HTTPStatusError (status_code r))).
Proof.
  intros env messages req hits r Hk Hpost Hs Hst Hr.
  assert (Hcall : forall msgs,
             call_llm env msgs
             = ([EvHttpPost OPENAI_URL], inl (HTTPStatusError (status_code r)))).
  { intros msgs. unfold call_llm. rewrite Hk.
    now apply call_openai_status_error. }
  assert (Hscall : forall msgs,
             Server.call_llm env msgs
             = ([EvHttpPost OPENAI_URL], inl (HTTPStatusError (status_code r)))).
  { intros msgs. unfold Server.call_llm. rewrite Hk.
    now apply call_openai_status_error. }
  split; [|split; [|split; [|split]]].
  - intros env' msgs. split.
    + intros H. pose proof (call_llm_trace env' msgs) as Ht. rewrite H in Ht.
      split; [unfold call_llm; now rewrite H | exact Ht].
    + intros H1 H2. pose proof (call_llm_trace env' msgs) as Ht.
      rewrite H1, H2 in Ht.
      split; [unfold call_llm; now rewrite H1, H2 | exact Ht].
  - apply Hcall.
  - rewrite (chat_fallthrough env req Hst), retrieve_pair, Hr.
    unfold bind. rewrite Hcall. reflexivity.
  - apply Hscall.
  - rewrite server_chat_unfold, retrieve_pair, Hr.
    unfold bind. rewrite Hscall. reflexivity.
Qed.

Lemma provider_precedence_and_status_error_witness :
  call_llm failing_openai_env [] = ([EvHttpPost OPENAI_URL], inl (HTTPStatusError 500)) /\
  chat failing_openai_env {| query := demo_query |}
  = ([EvEncode [demo_query] false; EvSearch 5; EvHttpPost OPENAI_URL],
     inl (HTTPStatusError 500)) /\
  Server.chat failing_openai_env {| query := demo_query |}
  = ([EvEncode [demo_query] false; EvSearch 5; EvHttpPost OPENAI_URL],
     inl (HTTPStatusError 500)).
Proof.
  pose proof (provider_precedence_and_status_error failing_openai_env []
                {| query := demo_query |} demo_hits
                {| status_code := 500; completion := None |}
                eq_refl (fun _ => eq_refl) eq_refl eq_refl eq_refl) as H.
  exact (conj (proj1 (proj2 H))
              (conj (proj1 (proj2 (proj2 H))) (proj2 (proj2 (proj2 (proj2 H)))))).
Defined.

(** ** The empty query *)

(** C9.  The empty string is not flagged and is not smalltalk; and with
    a non-empty corpus, an index that keeps the FAISS contract, a
    positive [TOP_K] and a gateway that returns, the endpoint goes
    through retrieval and returns a response: the generated answer,
    without the crisis message, and the citations of the hits. *)
Theorem empty_query_falls_through :
  forall (env : Env) (front : list ChunkRecord) (last : ChunkRecord),
    meta env = (front ++ [last])%list ->
    faiss_search_contract (List.length (meta env)) (index_search env) ->
    (0 < TOP_K env)%Z ->
    (forall msgs, exists a, outcome (call_llm env msgs) = inr a) ->
    check_red_flags "" = (false, "") /\
    handle_smalltalk "" = None /\
    exists hits a,
      outcome (retrieve env "" (TOP_K env)) = inr hits /\
      outcome (call_llm env (build_messages "" (format_context hits))) = inr a /\
      outcome (chat env {| query := "" |})
      = inr {| answer := a; citations := map citation_of hits |}.
Proof.
  intros env front last Hmeta Hc Hk Hllm.
  split; [reflexivity|]. split; [reflexivity|].
  destruct (retrieve_under_contract env "" (TOP_K env) front last Hmeta Hc Hk)
    as (hits & Hh & _).
  destruct (Hllm (build_messages "" (format_context hits))) as [a Ha].
  exists hits, a. split; [exact Hh|]. split; [exact Ha|].
  rewrite (chat_fallthrough env {| query := "" |} eq_refl).
  change (query {| query := "" |}) with "".
  rewrite retrieve_pair, Hh. unfold bind.
  destruct (call_llm env _) as [t o]. simpl in Ha. subst o. reflexivity.
Qed.

Lemma empty_query_falls_through_witness :
  check_red_flags "" = (false, "") /\
  handle_smalltalk "" = None /\
  exists hits a,
    outcome (retrieve demo_env "" 5) = inr hits /\
    outcome (call_llm demo_env (build_messages "" (format_context hits))) = inr a /\
    outcome (chat demo_env {| query := "" |})
    = inr {| answer := a; citations := map citation_of hits |}.
Proof.
  exact (empty_query_falls_through demo_env [] sleep_record eq_refl
           (IndexFlatIP_contract _) eq_refl
           (fun msgs => ex_intro _ NO_PROVIDER_WARNING eq_refl)).
Defined.

(** What the endpoint returns for the empty query on the sample
    deployment. *)
Lemma empty_query_demo :
  chat demo_env {| query := "" |}
  = ([EvEncode [""] false; EvSearch 5],
     inr {| answer := NO_PROVIDER_WARNING; citations := map citation_of demo_hits |}).
Proof. reflexivity. Qed.

(** ** The embedder and unit length *)

Section UnitLength.

Open Scope R_scope.

Lemma sum_squares_nonneg (v : vector) : 0 <= sum_squares v.
Proof.
  induction v as [|x v IH]; simpl; [lra|].
  pose proof (Rle_0_sqr x) as Hx. unfold Rsqr in Hx. lra.
Qed.

Lemma sum_squares_scaled (v : vector) (n : R) :
  n <> 0 -> sum_squares (map (fun x => x / n) v) = sum_squares v / (n * n).
Proof.
  intros Hn. induction v as [|x v IH]; simpl.
  - unfold Rdiv. now rewrite Rmult_0_l.
  - rewrite IH. field. exact Hn.
Qed.

Lemma eps_pos : 0 < eps.
Proof. unfold eps. apply Rinv_0_lt_compat. apply pow_lt. lra. Qed.

Lemma eps_le_1 : eps <= 1.
Proof.
  unfold eps. rewrite <- Rinv_1. apply Rinv_le_contravar; [lra|].
  apply pow_R1_Rle. lra.
Qed.

(** Dividing by the norm gives a vector of length one, provided the norm
    is not below the clamp. *)
Lemma l2_norm_normalize (v : vector) :
  eps <= l2_norm v -> l2_norm (normalize v) = 1.
Proof.
  intros Hn. unfold normalize. rewrite Rmax_left by exact Hn.
  pose proof eps_pos as He.
  assert (Hpos : 0 < l2_norm v) by lra.
  unfold l2_norm at 1. rewrite sum_squares_scaled by lra.
  unfold l2_norm. rewrite sqrt_sqrt by apply sum_squares_nonneg.
  assert (Hss : sum_squares v <> 0).
  { intros H0. unfold l2_norm in Hpos. rewrite H0, sqrt_0 in Hpos. lra. }
  unfold Rdiv. rewrite Rinv_r by exact Hss. apply sqrt_1.
Qed.

(** Every row that ingestion adds to the index has length one, when the
    encoder's own output is not below the clamp. *)
Lemma embs_unit_length (fwd : string -> vector) (texts : list string) (v : vector) :
  (forall t, In t texts -> eps <= l2_norm (fwd t)) ->
  In v (embs fwd texts) -> l2_norm v = 1.
Proof.
  intros Hfwd Hin. unfold embs, encode in Hin.
  apply in_map_iff in Hin. destruct Hin as [t [<- Ht]].
  apply l2_norm_normalize, Hfwd, Ht.
Qed.

(** For two vectors of length one the inner product is the cosine. *)
Lemma dot_is_cosine_on_unit_vectors (u v : vector) :
  l2_norm u = 1 -> l2_norm v = 1 -> dot u v = dot u v / (l2_norm u * l2_norm v).
Proof. intros -> ->. field. Qed.

Lemma l2_norm_3_4 : l2_norm [3; 4] = 5.
Proof.
  unfold l2_norm, sum_squares. simpl.
  replace (3 * 3 + (4 * 4 + 0)) with (5 * 5) by lra.
  apply sqrt_square. lra.
Qed.

Lemma normalize_3_4 : normalize [3; 4] = [3 / 5; 4 / 5].
Proof.
  unfold normalize. rewrite l2_norm_3_4.
  rewrite Rmax_left by (pose proof eps_le_1; lra). reflexivity.
Qed.

End UnitLength.

(** C3.  [embed] returns the output of the encoder as it is, for every
    deployment and text.  With an encoder whose output is (3, 4) the
    query vector has length 5, while the row that ingestion stores for
    the same encoder is (3/5, 4/5), of length 1; the inner product of
    the two is 5 and their cosine is 1. *)
Theorem embed_returns_unnormalized_vector :
  forall (env : Env) (text : string),
    embed env text = ([EvEncode [text] false], inr (forward env text)) /\
    outcome (embed demo_env text) = inr [3%R; 4%R] /\
    l2_norm [3%R; 4%R] = 5%R /\
    l2_norm [3%R; 4%R] <> 1%R /\
    embs raw_forward [text] = [[(3 / 5)%R; (4 / 5)%R]] /\
    l2_norm [(3 / 5)%R; (4 / 5)%R] = 1%R /\
    dot [3%R; 4%R] [(3 / 5)%R; (4 / 5)%R] = 5%R /\
    (dot [3%R; 4%R] [(3 / 5)%R; (4 / 5)%R]
     / (l2_norm [3%R; 4%R] * l2_norm [(3 / 5)%R; (4 / 5)%R]))%R = 1%R.
Proof.
  intros env text.
  assert (Hunit : l2_norm [(3 / 5)%R; (4 / 5)%R] = 1%R).
  { rewrite <- normalize_3_4. apply l2_norm_normalize.
    rewrite l2_norm_3_4. pose proof eps_le_1. lra. }
  assert (Hdot : dot [3%R; 4%R] [(3 / 5)%R; (4 / 5)%R] = 5%R)
    by (unfold dot; simpl; lra).
  split; [reflexivity|]. split; [reflexivity|].
  split; [apply l2_norm_3_4|].
  split; [rewrite l2_norm_3_4; lra|].
  split; [unfold embs, encode, raw_forward; simpl; now rewrite normalize_3_4|].
  split; [exact Hunit|]. split; [exact Hdot|].
  rewrite Hdot, Hunit, l2_norm_3_4. lra.
Qed.

(* ================================================================== *)
(** * Further properties of the pipeline *)
(* ================================================================== *)

(** ** Substrings under concatenation, case mapping and trimming *)

Section SubstringFacts.

Lemma is_substring_in_context (p s a b : string) :
  is_substring p s -> is_substring p (a ++ s ++ b).
Proof.
  intros [x [y ->]]. exists (a ++ x), (y ++ b).
  now rewrite !append_assoc.
Qed.

Lemma lstrip_keeps_substring (p s : string) :
  solid p = true -> is_substring p s -> is_substring p (lstrip s).
Proof.
  intros Hp [a [b ->]].
  induction a as [|x a IH]; simpl.
  - destruct p as [|c p]; [discriminate|]. simpl in *.
    apply andb_prop in Hp. destruct Hp as [Hc _].
    destruct (is_space c); [discriminate|]. exists "", b. reflexivity.
  - destruct (is_space x); [exact IH|].
    exists (String x a), b. reflexivity.
Qed.

Lemma rstrip_keeps_prefix (p x : string) :
  p <> "" -> no_trailing_space p = true -> exists y, rstrip (p ++ x) = p ++ y.
Proof.
  induction p as [|c p IH]; intros Hne Hp; [congruence|].
  destruct p as [|d p].
  - simpl in *. destruct (rstrip x) as [|e r].
    + destruct (is_space c); [discriminate|]. exists "". reflexivity.
    + exists (String e r). reflexivity.
  - destruct IH as [y Hy]; [discriminate | exact Hp |].
    change (rstrip (String c (String d p) ++ x))
      with (match rstrip (String d p ++ x) with
            | EmptyString => if is_space c then EmptyString else String c EmptyString
            | r' => String c r'
            end).
    rewrite Hy. exists y. reflexivity.
Qed.

Lemma rstrip_keeps_substring (p s : string) :
  solid p = true -> is_substring p s -> is_substring p (rstrip s).
Proof.
  intros Hp [a [b ->]].
  assert (Hne : p <> "") by (destruct p; [discriminate | discriminate]).
  assert (Ht : no_trailing_space p = true).
  { destruct p; [discriminate|]. simpl in Hp. now apply andb_prop in Hp. }
  assert (H : exists y, rstrip (a ++ p ++ b) = a ++ p ++ y).
  { induction a as [|x a IH].
    - simpl. apply rstrip_keeps_prefix; assumption.
    - destruct IH as [y Hy]. simpl. rewrite Hy.
      destruct (a ++ p ++ y) eqn:E.
      + destruct a; [destruct p; [congruence | discriminate] | discriminate].
      + exists y. now rewrite E. }
  destruct H as [y ->]. exists a, y. reflexivity.
Qed.

Lemma strip_keeps_substring (p s : string) :
  solid p = true -> is_substring p s -> is_substring p (strip s).
Proof.
  intros Hp H. unfold strip.
  now apply rstrip_keeps_substring, lstrip_keeps_substring.
Qed.

Lemma anywhere_patterns_solid :
  forallb solid anywhere_patterns = true.
Proof. reflexivity. Qed.

End SubstringFacts.

(** ** The safety filter in context *)

(** X1.  A text that is flagged stays flagged whatever is written before
    and after it: the crisis phrases are found anywhere in the text. *)
Theorem check_red_flags_in_context :
  forall a s b : string,
    fst (check_red_flags s) = true ->
    check_red_flags (a ++ s ++ b) = (true, CRISIS_MSG).
Proof.
  intros a s b H. unfold check_red_flags in *.
  rewrite scan_red_flags_any in *.
  destruct (any (fun rf => contains rf (lower s)) RED_FLAGS) eqn:E; [|discriminate].
  apply any_red_flag in E. destruct E as [rf [Hin Hsub]].
  assert (E' : any (fun rf => contains rf (lower (a ++ s ++ b))) RED_FLAGS = true).
  { apply any_red_flag. exists rf. split; [exact Hin|].
    rewrite !lower_append. now apply is_substring_in_context. }
  now rewrite E'.
Qed.

Lemma check_red_flags_in_context_witness :
  check_red_flags ("Please answer quickly: " ++ "my son is CHOKING" ++ "!!! what now?")
  = (true, CRISIS_MSG).
Proof.
  exact (check_red_flags_in_context "Please answer quickly: " "my son is CHOKING"
           "!!! what now?" eq_refl).
Defined.

(** X2.  The safety filter sees a text through its lower-cased form
    only: two texts with the same lower-cased form get the same result,
    so the lower-cased text gets the result of the text itself, and so
    does the upper-cased text when the text is ASCII; and the message is
    the crisis message exactly when the flag is set. *)
Theorem check_red_flags_ignores_case :
  forall s : string,
    check_red_flags (lower s) = check_red_flags s /\
    (forall s' : string, lower s' = lower s -> check_red_flags s' = check_red_flags s) /\
    (is_ascii s = true -> check_red_flags (upper s) = check_red_flags s) /\
    snd (check_red_flags s) = (if fst (check_red_flags s) then CRISIS_MSG else "").
Proof.
  intros s. unfold check_red_flags. split; [|split; [|split]].
  - now rewrite lower_idem.
  - intros s' H. now rewrite H.
  - intros H. now rewrite lower_upper.
  - rewrite scan_red_flags_any. now destruct (any _ RED_FLAGS).
Qed.

Lemma check_red_flags_ignores_case_witness :
  check_red_flags "HE IS NOT RESPONSIVE" = check_red_flags "he is not responsive" /\
  check_red_flags "He Is Not Responsive" = check_red_flags "he is not responsive".
Proof.
  split.
  - exact (proj1 (proj2 (proj2 (check_red_flags_ignores_case "he is not responsive")))
             eq_refl).
  - exact (proj1 (proj2 (check_red_flags_ignores_case "he is not responsive"))
             "He Is Not Responsive" eq_refl).
Defined.

(** ** Smalltalk end to end *)

Section SmalltalkEndToEnd.

Lemma handle_smalltalk_some_canned (s : string) (res : ChatResponse) :
  handle_smalltalk s = Some res ->
  exists c, res = {| answer := canned c; citations := [] |}.
Proof.
  rewrite handle_smalltalk_find.
  destruct (find _ _) as [c|]; simpl; [|discriminate].
  intros H. injection H as <-. now exists c.
Qed.

Lemma matches_not_none (c : Category) (s : string) :
  matches c (strip (lower s)) -> exists res, handle_smalltalk s = Some res.
Proof.
  intros Hm. destruct (handle_smalltalk s) as [res|] eqn:E; [now exists res|].
  rewrite handle_smalltalk_find in E.
  destruct (find _ _) as [c0|] eqn:Ef; [discriminate|].
  elim (proj1 (no_match_find (strip (lower s))) Ef c Hm).
Qed.

Lemma anywhere_pattern_matches (g t : string) :
  In g anywhere_patterns -> is_substring g t ->
  exists c, matches c t.
Proof.
  intros Hin Hsub. unfold anywhere_patterns in Hin.
  apply in_app_or in Hin. destruct Hin as [Hin | Hin].
  - exists Gratitude. exists g. now split.
  - apply in_app_or in Hin. destruct Hin as [Hin | Hin].
    + exists HowAreYou. exists g. now split.
    + exists Capabilities. exists g. split; [exact Hin | now right].
Qed.

End SmalltalkEndToEnd.

(** X3.  Whenever the smalltalk matcher accepts a query, the endpoint
    returns that answer and calls nothing: no encoder, no index, no
    provider; the answer is one of the five canned texts and carries no
    citation. *)
Theorem smalltalk_short_circuit :
  forall (env : Env) (req : ChatRequest) (res : ChatResponse),
    handle_smalltalk (query req) = Some res ->
    chat env req = ([], inr res) /\
    citations res = [] /\
    exists c, answer res = canned c.
Proof.
  intros env req res H. split; [now apply chat_smalltalk|].
  destruct (handle_smalltalk_some_canned _ _ H) as [c ->].
  split; [reflexivity | now exists c].
Qed.

Lemma smalltalk_short_circuit_witness :
  chat failing_openai_env {| query := "thanks so much" |}
  = ([], inr {| answer := GRATITUDE_ANSWER; citations := [] |}).
Proof.
  exact (proj1 (smalltalk_short_circuit failing_openai_env
                  {| query := "thanks so much" |}
                  {| answer := GRATITUDE_ANSWER; citations := [] |} eq_refl)).
Defined.

(** X4.  A query that contains, in any letter case, one of the patterns
    of the gratitude, how-are-you or capabilities lists -- "help" and
    "support" among them -- anywhere in its text is answered as
    smalltalk: the endpoint returns a canned answer and retrieval never
    runs. *)
Theorem pattern_anywhere_bypasses_retrieval :
  forall (env : Env) (s g : string),
    In g anywhere_patterns ->
    is_substring g (lower s) ->
    exists res,
      handle_smalltalk s = Some res /\
      chat env {| query := s |} = ([], inr res) /\
      citations res = [].
Proof.
  intros env s g Hin Hsub.
  assert (Hsolid : solid g = true).
  { pose proof anywhere_patterns_solid as H.
    rewrite forallb_forall in H. now apply H. }
  destruct (anywhere_pattern_matches g (strip (lower s)) Hin
              (strip_keeps_substring g (lower s) Hsolid Hsub)) as [c Hc].
  destruct (matches_not_none c s Hc) as [res Hres].
  exists res. split; [exact Hres|].
  split; [now apply (chat_smalltalk env {| query := s |}) |].
  now destruct (handle_smalltalk_some_canned _ _ Hres) as [c' ->].
Qed.

Lemma pattern_anywhere_bypasses_retrieval_witness :
  exists res,
    handle_smalltalk "My child needs HELP falling asleep" = Some res /\
    chat demo_env {| query := "My child needs HELP falling asleep" |} = ([], inr res) /\
    citations res = [].
Proof.
  apply (pattern_anywhere_bypasses_retrieval demo_env
           "My child needs HELP falling asleep" "help").
  - simpl. tauto.
  - exists "my child needs ", " falling asleep". reflexivity.
Defined.

(** X5.  A query whose text begins with a greeting pattern is a greeting
    whatever follows the pattern, a longer word included ("history"
    begins with "hi"). *)
Theorem greeting_prefix_wins :
  forall g t : string,
    In g greetings ->
    handle_smalltalk (g ++ t) = Some {| answer := GREETING_ANSWER; citations := [] |}.
Proof.
  intros g t Hin.
  assert (Hg : lower g = g /\ solid g = true).
  { simpl in Hin.
    repeat (destruct Hin as [<- | Hin]; [split; reflexivity|]). contradiction. }
  destruct Hg as [Hlow Hsolid].
  assert (Hpre : is_prefix g (strip (lower (g ++ t)))).
  { rewrite lower_append, Hlow. unfold strip.
    destruct g as [|c g']; [discriminate|].
    simpl in Hsolid. apply andb_prop in Hsolid. destruct Hsolid as [Hl Ht].
    rewrite (lstrip_fixed (String c g' ++ lower t)).
    - destruct (rstrip_keeps_prefix (String c g') (lower t)) as [y Hy];
        [discriminate | exact Ht |].
      exists y. exact Hy.
    - exact Hl. }
  rewrite handle_smalltalk_find.
  assert (Hm : matchb Greeting (strip (lower (g ++ t))) = true).
  { apply matchb_matches. exists g. now split. }
  unfold find. now rewrite Hm.
Qed.

Lemma greeting_prefix_wins_witness :
  handle_smalltalk ("hi" ++ "story of seizures in my family")
  = Some {| answer := GREETING_ANSWER; citations := [] |}.
Proof.
  apply (greeting_prefix_wins "hi" "story of seizures in my family").
  simpl. tauto.
Defined.

(** ** The endpoint beyond smalltalk *)

Section EndpointPaths.

Variable env : Env.

(** The shape of every run that reaches retrieval. *)
Lemma chat_after_retrieval (req : ChatRequest) (hits : list Hit) :
  handle_smalltalk (query req) = None ->
  outcome (retrieve env (query req) (TOP_K env)) = inr hits ->
  chat env req =
  (let '(t, r) := call_llm env (build_messages (query req) (format_context hits)) in
   ((EvEncode [query req] false :: EvSearch (TOP_K env) :: t)%list,
    match r with
    | inl e => inl e
    | inr a => inr {| answer := with_preface (query req) a;
                      citations := map citation_of hits |}
    end)).
Proof.
  intros Hs Hr. rewrite (chat_fallthrough env req Hs), retrieve_pair, Hr.
  unfold bind, ret. destruct (call_llm env _) as [t [e | a]]; simpl.
  - reflexivity.
  - now rewrite app_nil_r.
Qed.

Lemma strip_no_leading_space (s : string) : no_leading_space (strip s) = true.
Proof. apply rstrip_no_leading_space, lstrip_no_leading_space. Qed.

Lemma rstrip_no_trailing_space (s : string) : no_trailing_space (rstrip s) = true.
Proof.
  induction s as [|c s IH]; simpl; [reflexivity|].
  destruct (rstrip s) as [|d r] eqn:E.
  - destruct (is_space c) eqn:Ec; simpl; [reflexivity | now rewrite Ec].
  - exact IH.
Qed.

Lemma strip_no_trailing_space (s : string) : no_trailing_space (strip s) = true.
Proof. apply rstrip_no_trailing_space. Qed.

End EndpointPaths.

(** X6.  For a flagged query that is not smalltalk, when retrieval and
    generation succeed the answer is the crisis message, a blank line,
    and the generated text, and the citations of the hits come with it. *)
Theorem flagged_answer_carries_preface :
  forall (env : Env) (req : ChatRequest) (hits : list Hit)
         (t : list event) (a : string),
    fst (check_red_flags (query req)) = true ->
    handle_smalltalk (query req) = None ->
    outcome (retrieve env (query req) (TOP_K env)) = inr hits ->
    call_llm env (build_messages (query req) (format_context hits)) = (t, inr a) ->
    chat env req
    = ((EvEncode [query req] false :: EvSearch (TOP_K env) :: t)%list,
       inr {| answer := CRISIS_MSG ++ nl ++ nl ++ a;
              citations := map citation_of hits |}).
Proof.
  intros env req hits t a Hf Hs Hr Hc.
  rewrite (chat_after_retrieval env req hits Hs Hr), Hc.
  unfold with_preface. now rewrite Hf.
Qed.

Lemma flagged_answer_carries_preface_witness :
  chat demo_env {| query := "He is NOT RESPONSIVE right now" |}
  = ([EvEncode ["He is NOT RESPONSIVE right now"] false; EvSearch 5],
     inr {| answer := CRISIS_MSG ++ nl ++ nl ++ NO_PROVIDER_WARNING;
            citations := map citation_of demo_hits |}).
Proof.
  exact (flagged_answer_carries_preface demo_env
           {| query := "He is NOT RESPONSIVE right now" |} demo_hits []
           NO_PROVIDER_WARNING eq_refl eq_refl eq_refl eq_refl).
Defined.

(** X7.  When retrieval raises, the endpoint raises the same exception
    and no provider is called: the trace holds the encoder call and the
    index search only. *)
Theorem retrieval_error_stops_pipeline :
  forall (env : Env) (req : ChatRequest) (e : exn),
    handle_smalltalk (query req) = None ->
    outcome (retrieve env (query req) (TOP_K env)) = inl e ->
    chat env req = ([EvEncode [query req] false; EvSearch (TOP_K env)], inl e).
Proof.
  intros env req e Hs Hr.
  rewrite (chat_fallthrough env req Hs), retrieve_pair, Hr. reflexivity.
Qed.

Lemma retrieval_error_stops_pipeline_witness :
  chat empty_corpus_env {| query := demo_query |}
  = ([EvEncode [demo_query] false; EvSearch 5], inl IndexError).
Proof.
  exact (retrieval_error_stops_pipeline empty_corpus_env
           {| query := demo_query |} IndexError eq_refl eq_refl).
Defined.

(** X8.  When generation raises, whatever the exception, the endpoint
    raises it: no response is returned, so the hits that were retrieved
    and the crisis flag that was computed reach nobody. *)
Theorem generation_error_discards_citations :
  forall (env : Env) (req : ChatRequest) (hits : list Hit)
         (t : list event) (e : exn),
    handle_smalltalk (query req) = None ->
    outcome (retrieve env (query req) (TOP_K env)) = inr hits ->
    call_llm env (build_messages (query req) (format_context hits)) = (t, inl e) ->
    chat env req
    = ((EvEncode [query req] false :: EvSearch (TOP_K env) :: t)%list, inl e).
Proof.
  intros env req hits t e Hs Hr Hc.
  now rewrite (chat_after_retrieval env req hits Hs Hr), Hc.
Qed.

Lemma generation_error_discards_citations_witness :
  chat offline_openai_env {| query := "He is NOT RESPONSIVE right now" |}
  = ([EvEncode ["He is NOT RESPONSIVE right now"] false; EvSearch 5;
      EvHttpPost OPENAI_URL],
     inl TransportError).
Proof.
  exact (generation_error_discards_citations offline_openai_env
           {| query := "He is NOT RESPONSIVE right now" |} demo_hits
           [EvHttpPost OPENAI_URL] TransportError eq_refl eq_refl eq_refl).
Defined.

(** X9.  With an OpenAI key and a reply with a success status, the answer
    of the endpoint is the completion with the white space at both ends
    removed (behind the crisis message for a flagged query), after one
    request to the OpenAI endpoint; a reply without the completion text
    raises. *)
Theorem openai_success_answer_is_stripped :
  forall (env : Env) (req : ChatRequest) (hits : list Hit) (r : HttpResponse),
    truthy (OPENAI_API_KEY env) = true ->
    handle_smalltalk (query req) = None ->
    outcome (retrieve env (query req) (TOP_K env)) = inr hits ->
    http_post env
      (openai_request env (build_messages (query req) (format_context hits)))
    = inr r ->
    is_success r = true ->
    chat env req
    = ([EvEncode [query req] false; EvSearch (TOP_K env); EvHttpPost OPENAI_URL],
       match completion r with
       | Some c => inr {| answer := with_preface (query req) (strip c);
                          citations := map citation_of hits |}
       | None => inl ResponseShapeError
       end) /\
    (forall c : string,
        no_leading_space (strip c) = true /\ no_trailing_space (strip c) = true).
Proof.
  intros env req hits r Hk Hs Hr Hp Hok. split.
  - rewrite (chat_after_retrieval env req hits Hs Hr).
    unfold call_llm. rewrite Hk.
    unfold call_openai, bind, emit, lift, raise_for_status, content_of, ret, raise.
    rewrite Hp, Hok. destruct (completion r); reflexivity.
  - intros c.
    split; [apply strip_no_leading_space | apply strip_no_trailing_space].
Qed.

Lemma openai_success_answer_is_stripped_witness :
  chat working_openai_env {| query := demo_query |}
  = ([EvEncode [demo_query] false; EvSearch 5; EvHttpPost OPENAI_URL],
     inr {| answer := "Keep a consistent bedtime routine.";
            citations := map citation_of demo_hits |}).
Proof.
  exact (proj1 (openai_success_answer_is_stripped working_openai_env
                  {| query := demo_query |} demo_hits
                  {| status_code := 200;
                     completion := Some ("  Keep a consistent bedtime routine." ++ nl) |}
                  eq_refl eq_refl eq_refl eq_refl eq_refl)).
Defined.

(** ** Retrieval row by row *)

Section RetrievalRows.

Variable records : list ChunkRecord.

(** A label inside the metadata sequence gives the record at that place. *)
Lemma py_index_nth (i : Z) :
  (0 <= i < Z.of_nat (List.length records))%Z ->
  exists rec, py_index records i = inr rec /\
              nth_error records (Z.to_nat i) = Some rec.
Proof.
  intros Hi. unfold py_index.
  destruct (i <? 0)%Z eqn:E; [apply Z.ltb_lt in E; lia|].
  destruct (orb _ _) eqn:E2.
  - apply orb_true_iff in E2. destruct E2 as [E2 | E2];
      [apply Z.ltb_lt in E2 | apply Z.leb_le in E2]; lia.
  - destruct (nth_error records (Z.to_nat i)) eqn:E3; [eauto|].
    apply nth_error_None in E3. lia.
Qed.

(** A label at or past the end, or before the start counted from the
    end, raises. *)
Lemma py_index_out_of_range (i : Z) :
  (Z.of_nat (List.length records) <= i \/ i < - Z.of_nat (List.length records))%Z ->
  py_index records i = inl IndexError.
Proof.
  intros Hi. unfold py_index.
  destruct (i <? 0)%Z eqn:E.
  - apply Z.ltb_lt in E. destruct (orb _ _) eqn:E2; [reflexivity|].
    apply orb_false_iff in E2. destruct E2 as [E2 _]. apply Z.ltb_ge in E2. lia.
  - apply Z.ltb_ge in E. destruct (orb _ _) eqn:E2; [reflexivity|].
    apply orb_false_iff in E2. destruct E2 as [_ E2]. apply Z.leb_gt in E2. lia.
Qed.

Lemma hit_of_outcome (p : Z * R) :
  outcome (hit_of records p)
  = match py_index records (fst p) with
    | inl e => inl e
    | inr rec => inr {| score := snd p; text := get_or (abstract rec) "";
                        hit_meta := rec |}
    end.
Proof.
  destruct p as [idx sc]. unfold hit_of, bind, lift, ret. simpl.
  destruct (py_index records idx); reflexivity.
Qed.

Lemma hit_of_raises_only_IndexError (p : Z * R) (e : exn) :
  outcome (hit_of records p) = inl e -> e = IndexError.
Proof.
  rewrite hit_of_outcome. unfold py_index.
  destruct (orb _ _); [intros H; now injection H as <-|].
  destruct (nth_error _ _); [discriminate | intros H; now injection H as <-].
Qed.

(** The loop over labels that are all inside the metadata sequence. *)
Lemma hits_of_valid_labels (Ix : list Z) (D : list R) :
  Forall (fun i => (0 <= i < Z.of_nat (List.length records))%Z) Ix ->
  List.length D = List.length Ix ->
  exists hits,
    outcome (for_each (hit_of records) (combine Ix D)) = inr hits /\
    map score hits = D /\
    map (fun h => Some (hit_meta h)) hits
    = map (fun i => nth_error records (Z.to_nat i)) Ix /\
    Forall (fun h => text h = get_or (abstract (hit_meta h)) "") hits.
Proof.
  intros Hv. revert D. induction Hv as [|i Ix Hi _ IH]; intros D Hlen.
  - destruct D; [|discriminate]. exists []. repeat split; constructor.
  - destruct D as [|d D]; [discriminate|]. injection Hlen as Hlen.
    destruct (IH D Hlen) as (hits & Hh & Hs & Hm & Ht).
    destruct (py_index_nth i Hi) as (rec & Hrec & Hnth).
    exists ({| score := d; text := get_or (abstract rec) ""; hit_meta := rec |} :: hits).
    split; [|split; [|split]].
    + apply for_each_cons_ok; [|exact Hh].
      rewrite hit_of_outcome. simpl. now rewrite Hrec.
    + simpl. now rewrite Hs.
    + simpl. now rewrite Hm, Hnth.
    + constructor; [reflexivity | exact Ht].
Qed.

(** The loop stops at the first label outside the sequence. *)
Lemma hits_of_bad_label (l : list (Z * R)) (p : Z * R) :
  In p l ->
  py_index records (fst p) = inl IndexError ->
  outcome (for_each (hit_of records) l) = inl IndexError.
Proof.
  intros Hin Hbad. induction l as [|x l IH]; [contradiction|].
  destruct (outcome (hit_of records x)) as [e | h] eqn:Ex.
  - rewrite (hit_of_raises_only_IndexError x e Ex) in Ex.
    now apply for_each_cons_raise.
  - destruct Hin as [-> | Hin].
    + rewrite hit_of_outcome, Hbad in Ex. discriminate.
    + specialize (IH Hin). simpl. unfold bind, ret.
      destruct (hit_of records x) as [t r]. simpl in Ex. subst r.
      destruct (for_each (hit_of records) l) as [t' r']. simpl in IH. subst r'.
      reflexivity.
Qed.

End RetrievalRows.

(** X10.  When the index returns labels that all lie inside the metadata
    sequence, [retrieve] returns one hit per returned row, in the order
    of the index: hit number j has the j-th score, the record at the
    j-th label, and that record's abstract as its text. *)
Theorem retrieve_joins_rows_in_order :
  forall (env : Env) (query : string) (top_k : Z) (D : list R) (Ix : list Z),
    index_search env (forward env query) top_k = inr (D, Ix) ->
    List.length D = List.length Ix ->
    Forall (fun i => (0 <= i < Z.of_nat (List.length (meta env)))%Z) Ix ->
    exists hits,
      retrieve env query top_k
      = ([EvEncode [query] false; EvSearch top_k], inr hits) /\
      map score hits = D /\
      map (fun h => Some (hit_meta h)) hits
      = map (fun i => nth_error (meta env) (Z.to_nat i)) Ix /\
      Forall (fun h => text h = get_or (abstract (hit_meta h)) "") hits.
Proof.
  intros env query top_k D Ix Hs Hlen Hv.
  destruct (hits_of_valid_labels (meta env) Ix D Hv Hlen) as (hits & Hh & H1 & H2 & H3).
  exists hits. split; [|repeat split; assumption].
  rewrite retrieve_pair. f_equal.
  unfold retrieve, embed, bind, emit, ret, lift. simpl.
  rewrite Hs. simpl.
  destruct (for_each _ _) as [t r]. simpl in Hh. now subst r.
Qed.

Lemma retrieve_joins_rows_in_order_witness :
  exists hits,
    retrieve demo_env demo_query 1
    = ([EvEncode [demo_query] false; EvSearch 1], inr hits) /\
    map score hits = [dot (raw_forward demo_query) (normalize (raw_forward "sleep"))] /\
    map (fun h => Some (hit_meta h)) hits = [Some sleep_record] /\
    Forall (fun h => text h = get_or (abstract (hit_meta h)) "") hits.
Proof.
  apply (retrieve_joins_rows_in_order demo_env demo_query 1
           [dot (raw_forward demo_query) (normalize (raw_forward "sleep"))] [0%Z]).
  - reflexivity.
  - reflexivity.
  - repeat constructor; simpl; lia.
Defined.

(** X11.  When the index returns a label that is not a place of the
    metadata sequence -- at or past its length, or further back than its
    length from the end -- [retrieve] raises [IndexError]: an index and a
    metadata file out of step are not detected before a query hits the
    gap. *)
Theorem retrieve_raises_on_label_out_of_range :
  forall (env : Env) (query : string) (top_k : Z) (D : list R) (Ix : list Z)
         (i : Z) (d : R),
    index_search env (forward env query) top_k = inr (D, Ix) ->
    In (i, d) (combine Ix D) ->
    (Z.of_nat (List.length (meta env)) <= i
     \/ i < - Z.of_nat (List.length (meta env)))%Z ->
    retrieve env query top_k
    = ([EvEncode [query] false; EvSearch top_k], inl IndexError).
Proof.
  intros env query top_k D Ix i d Hs Hin Hbad.
  rewrite retrieve_pair. f_equal.
  pose proof (hits_of_bad_label (meta env) (combine Ix D) (i, d) Hin
                (py_index_out_of_range (meta env) i Hbad)) as H.
  unfold retrieve, embed, bind, emit, ret, lift. simpl.
  rewrite Hs. simpl.
  destruct (for_each _ _) as [t r]. simpl in H. now subst r.
Qed.

Lemma retrieve_raises_on_label_out_of_range_witness :
  retrieve out_of_step_env demo_query 2
  = ([EvEncode [demo_query] false; EvSearch 2], inl IndexError).
Proof.
  apply (retrieve_raises_on_label_out_of_range out_of_step_env demo_query 2
           [1%R; 0%R] [1%Z; 0%Z] 1%Z 1%R).
  - reflexivity.
  - simpl. left. reflexivity.
  - simpl. lia.
Defined.

(** ** The context block *)

Section ContextBlock.

Lemma join_contains (sep x : string) (xs : list string) :
  In x xs -> is_substring x (join sep xs).
Proof.
  induction xs as [|y ys IH]; [contradiction|].
  intros [-> | Hin].
  - destruct ys as [|z zs].
    + exists "", "". simpl. now rewrite append_empty_r.
    + exists "", (sep ++ join sep (z :: zs)). reflexivity.
  - destruct ys as [|z zs]; [contradiction|].
    destruct (IH Hin) as [a [b Hab]].
    exists (y ++ sep ++ a), b.
    change (join sep (y :: z :: zs)) with (y ++ sep ++ join sep (z :: zs)).
    rewrite Hab. now rewrite !append_assoc.
Qed.

Lemma is_substring_trans (p q s : string) :
  is_substring p q -> is_substring q s -> is_substring p s.
Proof.
  intros [a [b ->]] [c [d ->]]. exists (c ++ a), (b ++ d).
  now rewrite !append_assoc.
Qed.

End ContextBlock.

(** X12.  The context of no hits is the empty string; and every hit of
    the list is rendered in the context: its block, and so its text, its
    title and its authors (or "N/A" where the record has none) and its
    year (or nothing), appear in it. *)
Theorem format_context_shows_every_hit :
  forall (hits : list Hit) (h : Hit),
    In h hits ->
    format_context [] = "" /\
    is_substring (format_block h) (format_context hits) /\
    is_substring (text h) (format_context hits) /\
    is_substring ("[Title: " ++ get_or (title (hit_meta h)) "N/A"
                  ++ " | Authors: " ++ get_or (authors (hit_meta h)) "N/A"
                  ++ " | Year: " ++ get_or (year (hit_meta h)) "" ++ "]" ++ nl)
                 (format_context hits).
Proof.
  intros hits h Hin.
  assert (Hb : is_substring (format_block h) (format_context hits)).
  { unfold format_context. apply join_contains. now apply in_map. }
  split; [reflexivity|]. split; [exact Hb|]. split.
  - apply (is_substring_trans _ (format_block h)); [|exact Hb].
    unfold format_block.
    exists ("[" ++ ("Title: " ++ get_or (title (hit_meta h)) "N/A"
                    ++ " | Authors: " ++ get_or (authors (hit_meta h)) "N/A"
                    ++ " | Year: " ++ get_or (year (hit_meta h)) "") ++ "]" ++ nl), "".
    rewrite append_empty_r, !append_assoc. reflexivity.
  - apply (is_substring_trans _ (format_block h)); [|exact Hb].
    unfold format_block. exists "", (text h).
    rewrite !append_assoc. reflexivity.
Qed.

Lemma format_context_shows_every_hit_witness :
  is_substring "[Title: Sleep disorders in Down Syndrome | Authors: Breslin et al. | Year: 2014]"
               (format_context demo_hits) /\
  is_substring "[Title: N/A | Authors: N/A | Year: ]"
               (format_context [orphan_hit]).
Proof.
  split.
  - destruct (format_context_shows_every_hit demo_hits (padding_hit sleep_record)
                (or_intror (or_introl eq_refl))) as (_ & _ & _ & H).
    refine (is_substring_trans _ _ _ _ H). exists "", nl. reflexivity.
  - destruct (format_context_shows_every_hit [orphan_hit] orphan_hit
                (or_introl eq_refl)) as (_ & _ & _ & H).
    refine (is_substring_trans _ _ _ _ H). exists "", nl. reflexivity.
Defined.

(** ** The prompt *)

(** X14.  The query is written into the prompt as it is, so the prompt
    does not tell the query from the context: a query that ends with the
    context header followed by a text [x] gives the very prompt of the
    shorter query with [x] placed in front of the context. *)
Theorem build_messages_query_can_pose_as_context :
  forall q x c : string,
    build_messages (q ++ CONTEXT_HEADER ++ x) c
    = build_messages q (x ++ CONTEXT_HEADER ++ c).
Proof.
  intros q x c. unfold build_messages, user_turn, CONTEXT_HEADER.
  do 2 f_equal. f_equal.
  rewrite !append_assoc. reflexivity.
Qed.

(** ** The legacy endpoint *)

(** X15.  [call_llm] of [server.py] calls exactly one provider, chosen by
    configuration in the order OpenAI, Azure (when key, endpoint and
    deployment are all set), Ollama, and none when nothing is
    configured; it never calls two. *)
Theorem server_provider_precedence :
  forall (env : Env) (messages : list Message),
    trace (Server.call_llm env messages)
    = (if truthy (OPENAI_API_KEY env) then [EvHttpPost OPENAI_URL]
       else if andb (truthy (AZURE_KEY env))
                    (andb (truthy (AZURE_ENDPOINT env)) (truthy (AZURE_DEPLOYMENT env)))
            then [EvHttpPost (Server.AZURE_URL env)]
       else if truthy (OLLAMA_MODEL env)
            then [EvOllamaChat (get_or (OLLAMA_MODEL env) "")]
       else []) /\
    (List.length (trace (Server.call_llm env messages)) <= 1)%nat.
Proof.
  intros env messages. rewrite server_call_llm_trace.
  unfold Server.azure_configured. split; [reflexivity|].
  destruct (truthy (OPENAI_API_KEY env)); [simpl; lia|].
  destruct (andb _ _); [simpl; lia|].
  destruct (truthy (OLLAMA_MODEL env)); simpl; lia.
Qed.

(** X16.  The endpoint of [server.py] has no smalltalk step: every
    request, a greeting included, goes through retrieval, and when
    retrieval and generation succeed a flagged query always gets the
    crisis message in front of its answer. *)
Theorem server_chat_always_retrieves :
  forall (env : Env) (req : ChatRequest) (hits : list Hit)
         (t : list event) (a : string),
    outcome (retrieve env (query req) (TOP_K env)) = inr hits ->
    Server.call_llm env (build_messages (query req) (format_context hits)) = (t, inr a) ->
    Server.chat env req
    = ((EvEncode [query req] false :: EvSearch (TOP_K env) :: t)%list,
       inr {| answer := (if fst (check_red_flags (query req))
                         then CRISIS_MSG ++ nl ++ nl ++ a else a);
              citations := map citation_of hits |}).
Proof.
  intros env req hits t a Hr Hc.
  rewrite server_chat_unfold, retrieve_pair, Hr.
  unfold bind, ret. rewrite Hc. simpl. now rewrite app_nil_r.
Qed.

Lemma server_chat_always_retrieves_witness :
  Server.chat demo_env {| query := "hi, he just had a seizure" |}
  = ([EvEncode ["hi, he just had a seizure"] false; EvSearch 5],
     inr {| answer := CRISIS_MSG ++ nl ++ nl ++ NO_PROVIDER_WARNING;
            citations := map citation_of demo_hits |}).
Proof.
  exact (server_chat_always_retrieves demo_env
           {| query := "hi, he just had a seizure" |} demo_hits []
           NO_PROVIDER_WARNING eq_refl eq_refl).
Defined.

(** ** Ingestion: the rows of the index *)

(** X17.  The rows that [ingest.py] adds to the index are as many as the
    chunk texts, in their order, and each has length one, provided the
    encoder's output for each text is not shorter than the clamp of the
    normalization. *)
Theorem embs_rows_are_unit_vectors :
  forall (fwd : string -> vector) (texts : list string),
    (forall t, In t texts -> (eps <= l2_norm (fwd t))%R) ->
    List.length (embs fwd texts) = List.length texts /\
    embs fwd texts = map (fun t => normalize (fwd t)) texts /\
    Forall (fun v => l2_norm v = 1%R) (embs fwd texts).
Proof.
  intros fwd texts H. split; [apply length_map|]. split; [reflexivity|].
  apply Forall_forall. intros v Hv. now apply (embs_unit_length fwd texts).
Qed.

Lemma embs_rows_are_unit_vectors_witness :
  List.length (embs raw_forward ["sleep"; "feeding"]) = 2%nat /\
  Forall (fun v => l2_norm v = 1%R) (embs raw_forward ["sleep"; "feeding"]).
Proof.
  assert (H : forall t, In t ["sleep"; "feeding"] -> (eps <= l2_norm (raw_forward t))%R).
  { intros t _. unfold raw_forward. rewrite l2_norm_3_4.
    pose proof eps_le_1. lra. }
  exact (conj (proj1 (embs_rows_are_unit_vectors raw_forward _ H))
              (proj2 (proj2 (embs_rows_are_unit_vectors raw_forward _ H)))).
Defined.

(* ================================================================== *)
(** * Properties of cleaning and chunking *)
(* ================================================================== *)

Section CleanText.

Lemma rstrip_fixed (s : string) : no_trailing_space s = true -> rstrip s = s.
Proof.
  induction s as [|c s IH]; [reflexivity|].
  destruct s as [|d s].
  - simpl. destruct (is_space c); [discriminate | reflexivity].
  - intros H.
    change (rstrip (String c (String d s)))
      with (match rstrip (String d s) with
            | EmptyString => if is_space c then EmptyString else String c EmptyString
            | r' => String c r'
            end).
    rewrite IH by exact H. reflexivity.
Qed.

Lemma strip_fixed (s : string) :
  no_leading_space s = true -> no_trailing_space s = true -> strip s = s.
Proof.
  intros Hl Ht. unfold strip. rewrite lstrip_fixed by exact Hl.
  now apply rstrip_fixed.
Qed.

Lemma collapse_spaced_once (b : bool) (s : string) :
  spaced_once (collapse_whitespace b s) = true /\
  (b = true -> no_leading_space (collapse_whitespace b s) = true).
Proof.
  revert b. induction s as [|c s IH]; intros b; [now split|].
  simpl. destruct (is_space c) eqn:Ec.
  - destruct b.
    + destruct (IH true) as [H1 H2]. split; [exact H1 | intros _; now apply H2].
    + destruct (IH true) as [H1 H2]. split; [|discriminate].
      simpl. rewrite H1, H2 by reflexivity. reflexivity.
  - destruct (IH false) as [H1 _]. split.
    + simpl. now rewrite Ec, H1.
    + intros _. simpl. now rewrite Ec.
Qed.

Lemma spaced_once_lstrip (s : string) :
  spaced_once s = true -> spaced_once (lstrip s) = true.
Proof.
  induction s as [|c s IH]; [reflexivity|].
  intros H. simpl. destruct (is_space c) eqn:Ec; [|exact H].
  apply IH. simpl in H. now apply andb_prop in H.
Qed.

Lemma spaced_once_rstrip (s : string) :
  spaced_once s = true -> spaced_once (rstrip s) = true.
Proof.
  induction s as [|c s IH]; [reflexivity|].
  intros H. simpl in H. apply andb_prop in H. destruct H as [Hc Hs].
  specialize (IH Hs). simpl.
  destruct (rstrip s) as [|d r] eqn:E.
  - destruct (is_space c) eqn:Ec; [reflexivity|]. simpl. now rewrite Ec.
  - simpl. simpl in IH. rewrite IH.
    destruct (is_space c) eqn:Ec; [|reflexivity].
    apply andb_prop in Hc. destruct Hc as [Hsp Hl].
    rewrite Hsp. simpl.
    pose proof (rstrip_no_leading_space s Hl) as Hr. rewrite E in Hr.
    simpl in Hr. now rewrite Hr.
Qed.

Lemma clean_text_is_clean (text : string) : is_clean (clean_text text) = true.
Proof.
  unfold is_clean, clean_text.
  rewrite strip_no_leading_space, strip_no_trailing_space. simpl.
  unfold strip. apply spaced_once_rstrip, spaced_once_lstrip.
  apply (collapse_spaced_once false).
Qed.

Lemma collapse_fixed (s : string) :
  spaced_once s = true ->
  collapse_whitespace false s = s /\
  (no_leading_space s = true -> collapse_whitespace true s = s).
Proof.
  induction s as [|c s IH]; [now split|].
  intros H. simpl in H. apply andb_prop in H. destruct H as [Hc Hs].
  destruct (IH Hs) as [IH1 IH2]. simpl.
  destruct (is_space c) eqn:Ec.
  - apply andb_prop in Hc. destruct Hc as [Hsp Hl].
    apply Ascii.eqb_eq in Hsp. subst c. split.
    + now rewrite IH2.
    + intros Hn. vm_compute in Hn. discriminate.
  - split; [now rewrite IH1 | intros _; now rewrite IH1].
Qed.

Lemma clean_text_fixed (s : string) : is_clean s = true -> clean_text s = s.
Proof.
  unfold is_clean. intros H.
  apply andb_prop in H. destruct H as [Hl H].
  apply andb_prop in H. destruct H as [Ht Hs].
  unfold clean_text. rewrite (proj1 (collapse_fixed s Hs)).
  now apply strip_fixed.
Qed.

Lemma non_space_chars_collapse (b : bool) (s : string) :
  non_space_chars (collapse_whitespace b s) = non_space_chars s.
Proof.
  revert b. induction s as [|c s IH]; intros b; [reflexivity|].
  simpl. destruct (is_space c) eqn:Ec.
  - destruct b; simpl; now rewrite IH.
  - simpl. now rewrite Ec, IH.
Qed.

Lemma non_space_chars_lstrip (s : string) :
  non_space_chars (lstrip s) = non_space_chars s.
Proof.
  induction s as [|c s IH]; [reflexivity|].
  simpl. destruct (is_space c) eqn:Ec; [exact IH|]. simpl. now rewrite Ec.
Qed.

Lemma non_space_chars_rstrip (s : string) :
  non_space_chars (rstrip s) = non_space_chars s.
Proof.
  induction s as [|c s IH]; [reflexivity|].
  simpl. destruct (rstrip s) as [|d r] eqn:E.
  - simpl in IH. destruct (is_space c) eqn:Ec; simpl.
    + exact IH.
    + now rewrite Ec, <- IH.
  - simpl. simpl in IH. destruct (is_space c); now rewrite IH.
Qed.

Lemma non_space_chars_strip (s : string) :
  non_space_chars (strip s) = non_space_chars s.
Proof. unfold strip. now rewrite non_space_chars_rstrip, non_space_chars_lstrip. Qed.

End CleanText.

(** X18.  [clean_text] returns a text with single spaces between its
    words and no white space at either end (no tab, no line feed, no
    double space), and it keeps every character that is not white space,
    in order. *)
Theorem clean_text_normal_form :
  forall text : string,
    no_leading_space (clean_text text) = true /\
    no_trailing_space (clean_text text) = true /\
    spaced_once (clean_text text) = true /\
    non_space_chars (clean_text text) = non_space_chars text.
Proof.
  intros text. pose proof (clean_text_is_clean text) as H.
  unfold is_clean in H.
  apply andb_prop in H. destruct H as [Hl H].
  apply andb_prop in H. destruct H as [Ht Hs].
  repeat split; try assumption.
  unfold clean_text. now rewrite non_space_chars_strip, non_space_chars_collapse.
Qed.

(** X19.  [clean_text] changes nothing in a text that is already in that
    form, so cleaning twice is cleaning once. *)
Theorem clean_text_idempotent :
  forall text : string,
    clean_text (clean_text text) = clean_text text /\
    (is_clean text = true <-> clean_text text = text).
Proof.
  intros text. split.
  - apply clean_text_fixed, clean_text_is_clean.
  - split; [apply clean_text_fixed|].
    intros H. rewrite <- H. apply clean_text_is_clean.
Qed.

Section Chunking.

Variables max_len overlap : Z.

(** The loop only ever appends to the list of chunks. *)
Lemma chunk_loop_extends (sentences : list string) (chunks : list string)
    (current : string) :
  exists extra,
    fst (chunk_loop max_len overlap chunks current sentences) = (chunks ++ extra)%list /\
    Forall (fun c => strip c = c) extra.
Proof.
  revert chunks current. induction sentences as [|sent rest IH]; intros chunks current.
  - exists []. simpl. now rewrite app_nil_r.
  - cbn [chunk_loop]. destruct (_ <=? _)%Z.
    + apply IH.
    + destruct (IH (chunks ++ [strip current])%list
                  (slice_from (- overlap) current ++ " " ++ sent)) as [extra [He Hf]].
      exists (strip current :: extra). split.
      * rewrite He, <- app_assoc. reflexivity.
      * constructor; [apply strip_idem | exact Hf].
Qed.

Lemma py_len_nonneg (s : string) : (0 <= py_len s)%Z.
Proof.
  induction s as [|c s IH]; simpl; [lia|].
  destruct (is_continuation c); lia.
Qed.

Lemma strip_empty_no_chars (s : string) :
  strip s = "" -> non_space_chars s = [].
Proof. intros H. rewrite <- non_space_chars_strip, H. reflexivity. Qed.

Lemma non_space_chars_append (a b : string) :
  non_space_chars (a ++ b) = (non_space_chars a ++ non_space_chars b)%list.
Proof.
  induction a as [|c a IH]; simpl; [reflexivity|].
  destruct (is_space c); simpl; now rewrite IH.
Qed.

(** Once there is a chunk or a character to put in one, the loop ends
    with a chunk or with such a character. *)
Lemma chunk_loop_keeps_content (sentences : list string) (chunks : list string)
    (current : string) :
  chunks <> [] \/ non_space_chars current <> [] ->
  fst (chunk_loop max_len overlap chunks current sentences) <> [] \/
  non_space_chars (snd (chunk_loop max_len overlap chunks current sentences)) <> [].
Proof.
  revert chunks current. induction sentences as [|sent rest IH]; intros chunks current H.
  - exact H.
  - cbn [chunk_loop]. destruct (_ <=? _)%Z; apply IH.
    + destruct H as [H | H]; [now left | right].
      rewrite non_space_chars_append. destruct (non_space_chars current); [congruence | discriminate].
    + left. destruct chunks; discriminate.
Qed.

(** The first piece of a text that starts with a character that is not
    white space starts with that character. *)
Lemma split_sentences_head (c : ascii) (r : string) :
  is_space c = false ->
  exists p ps, split_sentences (String c r) = String c p :: ps.
Proof.
  intros _. unfold split_sentences. simpl.
  destruct (split_from _ r) as [|p ps]; simpl; eauto.
Qed.

Lemma split_from_nonempty (st : split_state) (s : string) : split_from st s <> [].
Proof.
  revert st. induction s as [|c s IH]; intros st; [discriminate|].
  simpl. destruct st as [b|].
  - destruct (andb b (is_space c)); [discriminate|].
    destruct (split_from _ s) eqn:E; [now apply IH in E | discriminate].
  - destruct (is_space c); [apply IH|].
    destruct (split_from _ s) eqn:E; [now apply IH in E | discriminate].
Qed.

End Chunking.

Lemma chunk_text_inhabited (text : string) (max_len overlap : Z) :
  chunk_text text max_len overlap <> [] /\
  Forall (fun c => strip c = c) (chunk_text text max_len overlap).
Proof.
  unfold chunk_text.
  destruct (py_len (clean_text text) <=? max_len)%Z eqn:Elen.
  - split; [discriminate|]. constructor; [|constructor].
    unfold clean_text. apply strip_idem.
  - apply Z.leb_gt in Elen.
    destruct (chunk_loop_extends max_len overlap (split_sentences (clean_text text)) [] "")
      as [extra [He Hf]].
    assert (Hcontent :
              fst (chunk_loop max_len overlap [] "" (split_sentences (clean_text text))) <> [] \/
              non_space_chars
                (snd (chunk_loop max_len overlap [] "" (split_sentences (clean_text text)))) <> []).
    { destruct (clean_text text) as [|c r] eqn:Ec.
      - (* an empty text is longer than [max_len] only if that is negative *)
        simpl in Elen. unfold split_sentences. simpl.
        destruct (1 <=? max_len)%Z eqn:E; [apply Z.leb_le in E; lia|].
        left. discriminate.
      - assert (Hc : is_space c = false).
        { pose proof (clean_text_is_clean text) as H. rewrite Ec in H.
          unfold is_clean in H. apply andb_prop in H. destruct H as [H _].
          simpl in H. now destruct (is_space c). }
        destruct (split_sentences_head c r Hc) as (p & ps & Hsp). rewrite Hsp.
        simpl. destruct (_ <=? _)%Z.
        + apply chunk_loop_keeps_content. right. simpl. rewrite Hc. discriminate.
        + apply chunk_loop_keeps_content. left. discriminate. }
    destruct (chunk_loop _ _ _ _ _) as [chunks current]. simpl in *. subst chunks.
    destruct (strip current) eqn:Es.
    + split; [|exact Hf].
      destruct Hcontent as [H | H]; [exact H|].
      now rewrite (strip_empty_no_chars current Es) in H.
    + split; [destruct extra; discriminate|].
      apply Forall_app. split; [exact Hf|].
      constructor; [|constructor]. rewrite <- Es. apply strip_idem.
Qed.

(** X20.  [chunk_text] always returns at least one chunk, and no chunk
    has white space at its start or its end. *)
Theorem chunk_text_chunks_are_stripped :
  forall (text : string) (max_len overlap : Z),
    chunk_text text max_len overlap <> [] /\
    Forall (fun c => strip c = c) (chunk_text text max_len overlap).
Proof. intros text max_len overlap. apply chunk_text_inhabited. Qed.

(** X21.  When the cleaned text is longer than [max_len] and already its
    first sentence does not fit ([len(sentence) + 1 > max_len]), the
    first chunk that [chunk_text] returns is the empty string. *)
Theorem chunk_text_leading_empty_chunk :
  forall (text : string) (max_len overlap : Z) (first : string) (rest : list string),
    (max_len < py_len (clean_text text))%Z ->
    split_sentences (clean_text text) = first :: rest ->
    (max_len < py_len first + 1)%Z ->
    exists others, chunk_text text max_len overlap = "" :: others.
Proof.
  intros text max_len overlap first rest Hlen Hsp Hfirst.
  unfold chunk_text.
  destruct (py_len (clean_text text) <=? max_len)%Z eqn:E; [apply Z.leb_le in E; lia|].
  rewrite Hsp. cbn [chunk_loop py_len].
  destruct (0 + py_len first + 1 <=? max_len)%Z eqn:E1; [apply Z.leb_le in E1; lia|].
  destruct (chunk_loop_extends max_len overlap rest [""]
              (slice_from (- overlap) "" ++ " " ++ first)) as [extra [He _]].
  change (strip "") with "".
  destruct (chunk_loop _ _ _ _ _) as [chunks current]. simpl in He. subst chunks.
  destruct (strip current); simpl; eexists; reflexivity.
Qed.

Lemma chunk_text_leading_empty_chunk_witness :
  exists others,
    chunk_text "Breathing exercises can calm a child before sleep. Try them." 20 5
    = "" :: others.
Proof.
  apply (chunk_text_leading_empty_chunk
           "Breathing exercises can calm a child before sleep. Try them." 20 5
           "Breathing exercises can calm a child before sleep." ["Try them."]);
    reflexivity.
Defined.

Section ZeroOverlap.

Lemma is_prefix_refl (a : string) : is_prefix a a.
Proof. exists "". now rewrite append_empty_r. Qed.

Lemma is_prefix_trans (a b c : string) : is_prefix a b -> is_prefix b c -> is_prefix a c.
Proof. intros [x ->] [y ->]. exists (x ++ y). now rewrite append_assoc. Qed.

Lemma is_prefix_cons (c : ascii) (a b : string) :
  is_prefix a b -> is_prefix (String c a) (String c b).
Proof. intros [x ->]. now exists x. Qed.

Lemma rstrip_prefix_mono (y x : string) : is_prefix (rstrip y) (rstrip (y ++ x)).
Proof.
  induction y as [|c y IH]; [now exists (rstrip x)|].
  simpl. destruct IH as [z Hz].
  destruct (rstrip y) as [|d r] eqn:E.
  - simpl in Hz. destruct (rstrip (y ++ x)) as [|e r2].
    + apply is_prefix_refl.
    + destruct (is_space c); [now exists (String c (String e r2))|].
      now exists (String e r2).
  - rewrite Hz. simpl. now exists z.
Qed.

Lemma lstrip_append (a x : string) :
  lstrip a <> "" -> lstrip (a ++ x) = lstrip a ++ x.
Proof.
  induction a as [|c a IH]; simpl; [congruence|].
  destruct (is_space c); [exact IH | reflexivity].
Qed.

Lemma strip_prefix_mono (a x : string) : is_prefix (strip a) (strip (a ++ x)).
Proof.
  unfold strip. destruct (lstrip a) as [|c r] eqn:E.
  - now exists (rstrip (lstrip (a ++ x))).
  - rewrite lstrip_append by (rewrite E; discriminate).
    rewrite E. apply rstrip_prefix_mono.
Qed.

Lemma slice_from_zero (s : string) : slice_from (- 0) s = s.
Proof.
  unfold slice_from. change (- 0)%Z with 0%Z. simpl.
  pose proof (py_len_nonneg s). now rewrite Z.min_l by lia.
Qed.

Lemma chain_replace_last (l : list string) (a b : string) :
  each_prefix_of_next (l ++ [a]) -> is_prefix a b -> each_prefix_of_next (l ++ [b]).
Proof.
  intros H Hab. induction l as [|x l IH]; [exact I|].
  destruct l as [|y l].
  - simpl in *. split; [|exact I]. destruct H as [H _]. now apply (is_prefix_trans x a b).
  - simpl in *. destruct H as [H1 H2]. split; [exact H1 | now apply IH].
Qed.

Lemma chain_snoc (l : list string) (a b : string) :
  each_prefix_of_next (l ++ [a]) -> is_prefix a b -> each_prefix_of_next (l ++ [a; b]).
Proof.
  intros H Hab. induction l as [|x l IH]; [simpl; tauto|].
  destruct l as [|y l].
  - simpl in *. tauto.
  - simpl in *. destruct H as [H1 H2]. split; [exact H1 | now apply IH].
Qed.

Lemma chain_without_last (l : list string) (a : string) :
  each_prefix_of_next (l ++ [a]) -> each_prefix_of_next l.
Proof.
  induction l as [|x l IH]; [intros _; exact I|].
  destruct l as [|y l]; [intros _; exact I|].
  simpl. intros [H1 H2]. split; [exact H1 | now apply IH].
Qed.

Lemma chunk_loop_zero_overlap_chain (max_len : Z) (sentences : list string)
    (chunks : list string) (current : string) :
  each_prefix_of_next (chunks ++ [strip current]) ->
  each_prefix_of_next
    (fst (chunk_loop max_len 0 chunks current sentences)
     ++ [strip (snd (chunk_loop max_len 0 chunks current sentences))]).
Proof.
  revert chunks current. induction sentences as [|sent rest IH]; intros chunks current H.
  - exact H.
  - cbn [chunk_loop]. destruct (_ <=? _)%Z; apply IH.
    + apply (chain_replace_last chunks (strip current)); [exact H|].
      apply strip_prefix_mono.
    + rewrite slice_from_zero, <- app_assoc.
      apply chain_snoc; [exact H | apply strip_prefix_mono].
Qed.

End ZeroOverlap.

(** X22.  With [overlap = 0] nothing is cut off the previous chunk: the
    slice [current[-0:]] is the whole of [current], so every chunk that
    [chunk_text] returns is a prefix of the next one. *)
Theorem chunk_text_zero_overlap_accumulates :
  forall (text : string) (max_len : Z),
    each_prefix_of_next (chunk_text text max_len 0).
Proof.
  intros text max_len. unfold chunk_text.
  destruct (_ <=? _)%Z; [exact I|].
  pose proof (chunk_loop_zero_overlap_chain max_len
                (split_sentences (clean_text text)) [] "" I) as H.
  destruct (chunk_loop _ _ _ _ _) as [chunks current]. simpl in H.
  destruct (strip current) eqn:E.
  - now apply chain_without_last in H.
  - exact H.
Qed.

Section Coverage.

Lemma no_trailing_space_tail (c : ascii) (r : string) :
  no_trailing_space (String c r) = true -> no_trailing_space r = true.
Proof. destruct r; [reflexivity | trivial]. Qed.

Lemma no_trailing_space_cons (c : ascii) (p : string) :
  is_space c = false -> no_trailing_space p = true ->
  no_trailing_space (String c p) = true.
Proof.
  intros Hc Hp. destruct p; [simpl; now rewrite Hc | exact Hp].
Qed.

Lemma solid_nonempty (p : string) : solid p = true -> p <> "".
Proof. destruct p; [discriminate | discriminate]. Qed.

Lemma solid_no_trailing (p : string) : solid p = true -> no_trailing_space p = true.
Proof.
  destruct p; [discriminate|]. simpl. intros H. now apply andb_prop in H.
Qed.

(** The pieces of a text with single spaces and no space at its end:
    every piece after the first is solid, and so is the first when the
    text starts with a character that is not white space. *)
Lemma split_pieces_solid (s : string) (st : split_state) :
  spaced_once s = true ->
  no_trailing_space s = true ->
  (st = InGap -> no_leading_space s = true /\ s <> "") ->
  exists p ps,
    split_from st s = p :: ps /\
    no_trailing_space p = true /\
    Forall (fun q => solid q = true) ps /\
    (no_leading_space s = true -> s <> "" -> solid p = true).
Proof.
  revert st. induction s as [|c r IH]; intros st Hs Ht Hgap.
  - destruct st as [b|]; [|destruct (Hgap eq_refl) as [_ H]; congruence].
    exists "", []. repeat split; [constructor | congruence].
  - simpl in Hs. apply andb_prop in Hs. destruct Hs as [Hc Hr].
    pose proof (no_trailing_space_tail c r Ht) as Htr.
    simpl. destruct (is_space c) eqn:Ec.
    + apply andb_prop in Hc. destruct Hc as [_ Hlr].
      assert (Hrne : r <> "").
      { intros ->. simpl in Ht. rewrite Ec in Ht. discriminate. }
      destruct st as [[|]|].
      * destruct (IH InGap Hr Htr (fun _ => conj Hlr Hrne)) as (p & ps & E & _ & Hps & Hp).
        exists "", (p :: ps). rewrite E. simpl.
        repeat split; [constructor; [now apply Hp | exact Hps] | ].
        intros H. simpl in H. discriminate.
      * destruct (IH (InPiece (ends_sentence c)) Hr Htr) as (p & ps & E & _ & Hps & Hp);
          [discriminate|].
        exists (String c p), ps. rewrite E. simpl.
        specialize (Hp Hlr Hrne).
        repeat split; [|exact Hps|].
        -- destruct p; [discriminate | now apply solid_no_trailing in Hp].
        -- intros H. simpl in H. discriminate.
      * destruct (Hgap eq_refl) as [H _]. simpl in H. rewrite Ec in H. discriminate.
    + assert (Hcons : exists p ps,
                 cons_head c (split_from (InPiece (ends_sentence c)) r) = p :: ps /\
                 no_trailing_space p = true /\
                 Forall (fun q => solid q = true) ps /\ solid p = true).
      { destruct (IH (InPiece (ends_sentence c)) Hr Htr) as (p & ps & E & Hp & Hps & _);
          [discriminate|].
        exists (String c p), ps. rewrite E. cbn [cons_head].
        pose proof (no_trailing_space_cons c p Ec Hp) as Hcp.
        repeat split; [exact Hcp | exact Hps |].
        cbn [solid no_leading_space]. rewrite Ec, Hcp. reflexivity. }
      destruct Hcons as (p & ps & E & H1 & H2 & H3).
      exists p, ps.
      destruct st as [b|].
      * replace (andb b false) with false by (now destruct b).
        rewrite E. repeat split; intros; assumption.
      * rewrite E. repeat split; intros; assumption.
Qed.

Lemma split_sentences_solid (s : string) :
  is_clean s = true -> s <> "" ->
  Forall (fun q => solid q = true) (split_sentences s).
Proof.
  unfold is_clean. intros H Hne.
  apply andb_prop in H. destruct H as [Hl H].
  apply andb_prop in H. destruct H as [Ht Hs].
  destruct (split_pieces_solid s (InPiece false) Hs Ht) as (p & ps & E & _ & Hps & Hp);
    [discriminate|].
  unfold split_sentences. rewrite E. constructor; [now apply Hp | exact Hps].
Qed.

(** Every piece is a part of the text. *)
Lemma split_pieces_substrings (s : string) (st : split_state) :
  (forall p, In p (split_from st s) -> is_substring p s) /\
  (forall b, st = InPiece b ->
             exists p ps, split_from st s = p :: ps /\ is_prefix p s).
Proof.
  revert st. induction s as [|c r IH]; intros st.
  - split.
    + intros p [<- | []]. now exists "", "".
    + intros b _. exists "", []. split; [reflexivity | now exists ""].
  - assert (Hcons : forall b',
               (forall p, In p (cons_head c (split_from (InPiece b') r)) ->
                          is_substring p (String c r)) /\
               exists p ps, cons_head c (split_from (InPiece b') r) = p :: ps /\
                            is_prefix p (String c r)).
    { intros b'. destruct (IH (InPiece b')) as [H1 H2].
      destruct (H2 b' eq_refl) as (p0 & ps & E & [x Hx]).
      rewrite E in *. simpl. split.
      - intros p [<- | Hin].
        + exists "", x. simpl. now rewrite Hx.
        + destruct (H1 p (or_intror Hin)) as [a [b ->]].
          now exists (String c a), b.
      - exists (String c p0), ps. split; [reflexivity|]. exists x. simpl. now rewrite Hx. }
    assert (Hgap : forall p, In p (split_from InGap r) -> is_substring p (String c r)).
    { intros p Hin. destruct (proj1 (IH InGap) p Hin) as [a [b ->]].
      now exists (String c a), b. }
    simpl. destruct st as [b|].
    + destruct (andb b (is_space c)).
      * split.
        -- intros p [<- | Hin]; [now exists "", (String c r) | now apply Hgap].
        -- intros b0 _. exists "", (split_from InGap r).
           split; [reflexivity | now exists (String c r)].
      * split; [apply Hcons | intros b0 _; apply Hcons].
    + destruct (is_space c).
      * split; [exact Hgap | discriminate].
      * split; [apply Hcons | discriminate].
Qed.

Variables max_len overlap : Z.

Lemma Exists_app_l {X : Type} (P : X -> Prop) (l l' : list X) :
  Exists P l -> Exists P (l ++ l').
Proof. intros H. apply Exists_app. now left. Qed.

(** A solid sentence that is in a chunk, in [current] or still to come
    is, at the end of the loop, in a chunk or in [current]. *)
Lemma chunk_loop_covers (s : string) (sentences : list string)
    (chunks : list string) (current : string) :
  solid s = true ->
  Exists (is_substring s) chunks \/ is_substring s current \/ In s sentences ->
  Exists (is_substring s) (fst (chunk_loop max_len overlap chunks current sentences)) \/
  is_substring s (snd (chunk_loop max_len overlap chunks current sentences)).
Proof.
  intros Hs. revert chunks current.
  induction sentences as [|sent rest IH]; intros chunks current H.
  - simpl. destruct H as [H | [H | []]]; [now left | now right].
  - cbn [chunk_loop]. destruct (_ <=? _)%Z; apply IH.
    + destruct H as [H | [H | [-> | H]]].
      * now left.
      * right; left. destruct H as [a [b ->]]. exists a, (b ++ " " ++ sent).
        now rewrite !append_assoc.
      * right; left. exists (current ++ " "), "".
        now rewrite append_empty_r, !append_assoc.
      * right; right; exact H.
    + destruct H as [H | [H | [-> | H]]].
      * left. now apply Exists_app_l.
      * left. apply Exists_app. right. constructor.
        now apply strip_keeps_substring.
      * right; left. exists (slice_from (- overlap) current ++ " "), "".
        now rewrite append_empty_r, !append_assoc.
      * right; right; exact H.
Qed.

Lemma is_substring_of_empty (s : string) : is_substring s "" -> s = "".
Proof.
  intros [a [b H]]. destruct a; [|discriminate].
  destruct s; [reflexivity | discriminate].
Qed.

End Coverage.

(** X23.  No sentence is lost by chunking: every piece into which the
    cleaned text is split at its sentence ends is contained in one of
    the chunks that [chunk_text] returns, whatever [max_len] and
    [overlap] are. *)
Theorem chunk_text_covers_every_sentence :
  forall (text : string) (max_len overlap : Z) (s : string),
    In s (split_sentences (clean_text text)) ->
    Exists (is_substring s) (chunk_text text max_len overlap).
Proof.
  intros text max_len overlap s Hin.
  destruct (clean_text text) as [|c0 r0] eqn:Ec.
  - (* the empty text has the empty piece only *)
    destruct Hin as [<- | []].
    destruct (chunk_text_inhabited text max_len overlap) as [Hne _].
    destruct (chunk_text text max_len overlap) as [|x l]; [congruence|].
    constructor. now exists "", x.
  - assert (Hsolid : solid s = true).
    { pose proof (split_sentences_solid (String c0 r0)) as H.
      rewrite <- Ec in H. specialize (H (clean_text_is_clean text)).
      rewrite Ec in H. specialize (H ltac:(discriminate)).
      rewrite Forall_forall in H. now apply H. }
    unfold chunk_text. rewrite Ec.
    destruct (_ <=? _)%Z.
    + constructor. now apply (proj1 (split_pieces_substrings (String c0 r0) (InPiece false))).
    + pose proof (chunk_loop_covers max_len overlap s
                    (split_sentences (String c0 r0)) [] "" Hsolid
                    (or_intror (or_intror Hin))) as H.
      destruct (chunk_loop _ _ _ _ _) as [chunks current]. simpl in H.
      destruct H as [H | H].
      * destruct (strip current); [exact H | now apply Exists_app_l].
      * apply (strip_keeps_substring s current Hsolid) in H.
        destruct (strip current) eqn:Es.
        -- apply is_substring_of_empty in H. subst s. discriminate.
        -- apply Exists_app. right. now constructor.
Qed.

Lemma chunk_text_covers_every_sentence_witness :
  Exists (is_substring "Try them.")
         (chunk_text "Breathing exercises can calm a child before sleep. Try them." 20 5).
Proof.
  apply (chunk_text_covers_every_sentence
           "Breathing exercises can calm a child before sleep. Try them." 20 5 "Try them.").
  right. left. reflexivity.
Defined.

(* ================================================================== *)
(** * Properties of ingestion *)
(* ================================================================== *)

Section Ingestion.

Lemma enumerate_from_length {A : Type} (i : Z) (xs : list A) :
  List.length (enumerate_from i xs) = List.length xs.
Proof.
  revert i. induction xs as [|x xs IH]; intros i; simpl; [reflexivity | now rewrite IH].
Qed.

Lemma enumerate_from_snd {A : Type} (i : Z) (xs : list A) :
  map snd (enumerate_from i xs) = xs.
Proof.
  revert i. induction xs as [|x xs IH]; intros i; simpl; [reflexivity | now rewrite IH].
Qed.

Lemma enumerate_from_fst {A : Type} (i : Z) (xs : list A) :
  map fst (enumerate_from i xs)
  = map (fun k => (i + Z.of_nat k)%Z) (seq 0 (List.length xs)).
Proof.
  revert i. induction xs as [|x xs IH]; intros i; [reflexivity|].
  simpl. rewrite Z.add_0_r. f_equal.
  rewrite IH, <- seq_shift, map_map.
  apply map_ext. intros k. lia.
Qed.

(** The chunks of one row that is not skipped. *)
Lemma row_chunks_kept (basename : string) (row : CsvRow) :
  (clean_text (Abstract row) <> "" \/ clean_text (Title row) <> "") ->
  row_chunks basename row
  = map (fun p =>
           {| chunk_body := snd p;
              chunk_meta :=
                {| title := Some (clean_text (Title row));
                   authors := Some (clean_text (Authors row));
                   abstract := Some (clean_text (Abstract row));
                   source_file := Some basename;
                   chunk_id := Some (fst p);
                   year := None;
                   url := None |} |})
        (enumerate_from 0
           (chunk_text (strip (clean_text (Title row) ++ nl ++ nl
                               ++ clean_text (Abstract row))) 1200 150)).
Proof.
  intros H. unfold row_chunks.
  destruct (clean_text (Abstract row)); [|reflexivity].
  destruct (clean_text (Title row)); [|reflexivity].
  destruct H; congruence.
Qed.

Lemma row_chunks_skipped (basename : string) (row : CsvRow) :
  clean_text (Abstract row) = "" -> clean_text (Title row) = "" ->
  row_chunks basename row = [].
Proof. intros H1 H2. unfold row_chunks. now rewrite H1, H2. Qed.

Lemma row_chunks_records (basename : string) (row : CsvRow) (c : Chunk) :
  In c (row_chunks basename row) ->
  title (chunk_meta c) = Some (clean_text (Title row)) /\
  authors (chunk_meta c) = Some (clean_text (Authors row)) /\
  abstract (chunk_meta c) = Some (clean_text (Abstract row)) /\
  source_file (chunk_meta c) = Some basename /\
  year (chunk_meta c) = None /\
  url (chunk_meta c) = None.
Proof.
  intros Hin.
  destruct (clean_text (Abstract row)) eqn:Ea; [destruct (clean_text (Title row)) eqn:Et|].
  - rewrite row_chunks_skipped in Hin by assumption. contradiction.
  - rewrite row_chunks_kept in Hin by (right; rewrite Et; discriminate).
    apply in_map_iff in Hin. destruct Hin as [p [<- _]]. simpl.
    rewrite Ea, Et. repeat split.
  - rewrite row_chunks_kept in Hin by (left; rewrite Ea; discriminate).
    apply in_map_iff in Hin. destruct Hin as [p [<- _]]. simpl.
    rewrite Ea. repeat split.
Qed.

(** One row of the index for every record of [meta.json]. *)
Lemma index_rows_match_metadata (fwd : string -> vector) (chunks : list Chunk) :
  List.length (embs fwd (texts chunks)) = List.length (meta_json chunks).
Proof. unfold embs, encode, texts, meta_json. now rewrite !length_map. Qed.

Lemma all_chunks_origin (files : list (string * list CsvRow)) (c : Chunk) :
  In c (all_chunks files) ->
  exists f row, In f files /\ In row (snd f) /\ In c (row_chunks (fst f) row).
Proof.
  unfold all_chunks. intros H. apply in_flat_map in H. destruct H as [f [Hf H]].
  apply in_flat_map in H. destruct H as [row [Hrow H]]. now exists f, row.
Qed.

End Ingestion.

(** X24.  What ingestion makes of one row: nothing when its cleaned title
    and abstract are both empty, and otherwise at least one chunk; the
    chunk texts are those of [chunk_text] on the cleaned title and
    abstract, the chunk ids count 0, 1, 2, ... in that order, and every
    chunk carries the same record: the cleaned title and authors, the
    whole cleaned abstract, the file name, and no year and no url. *)
Theorem row_chunks_per_row :
  forall (basename : string) (row : CsvRow),
    (row_chunks basename row = []
     <-> clean_text (Abstract row) = "" /\ clean_text (Title row) = "") /\
    map chunk_body (row_chunks basename row)
    = (if andb (String.eqb (clean_text (Abstract row)) "")
               (String.eqb (clean_text (Title row)) "")
       then []
       else chunk_text (strip (clean_text (Title row) ++ nl ++ nl
                               ++ clean_text (Abstract row))) 1200 150) /\
    map (fun c => chunk_id (chunk_meta c)) (row_chunks basename row)
    = map (fun k => Some (Z.of_nat k)) (seq 0 (List.length (row_chunks basename row))) /\
    Forall (fun c =>
              title (chunk_meta c) = Some (clean_text (Title row)) /\
              authors (chunk_meta c) = Some (clean_text (Authors row)) /\
              abstract (chunk_meta c) = Some (clean_text (Abstract row)) /\
              source_file (chunk_meta c) = Some basename /\
              year (chunk_meta c) = None /\
              url (chunk_meta c) = None)
           (row_chunks basename row).
Proof.
  intros basename row.
  assert (Hrec : Forall (fun c =>
              title (chunk_meta c) = Some (clean_text (Title row)) /\
              authors (chunk_meta c) = Some (clean_text (Authors row)) /\
              abstract (chunk_meta c) = Some (clean_text (Abstract row)) /\
              source_file (chunk_meta c) = Some basename /\
              year (chunk_meta c) = None /\
              url (chunk_meta c) = None)
           (row_chunks basename row)).
  { apply Forall_forall. intros c. apply row_chunks_records. }
  destruct (String.eqb (clean_text (Abstract row)) "") eqn:Ea;
    [destruct (String.eqb (clean_text (Title row)) "") eqn:Et|].
  - apply String.eqb_eq in Ea, Et.
    rewrite (row_chunks_skipped basename row Ea Et) in *.
    repeat split; trivial.
  - apply String.eqb_neq in Et.
    rewrite (row_chunks_kept basename row (or_intror Et)) in *.
    set (chunks := chunk_text _ 1200 150) in *.
    assert (Hne : chunks <> []) by apply chunk_text_inhabited.
    split; [|split; [|split]].
    + split.
      * intros H. apply (f_equal (@List.length _)) in H.
        rewrite length_map, enumerate_from_length in H.
        destruct chunks; [congruence | discriminate].
      * intros [_ H]. congruence.
    + simpl. rewrite map_map. simpl. apply enumerate_from_snd.
    + rewrite map_map. simpl. rewrite length_map, enumerate_from_length.
      rewrite <- (map_map fst (fun i => Some i)), enumerate_from_fst, map_map.
      apply map_ext. intros k. reflexivity.
    + exact Hrec.
  - apply String.eqb_neq in Ea.
    rewrite (row_chunks_kept basename row (or_introl Ea)) in *.
    set (chunks := chunk_text _ 1200 150) in *.
    assert (Hne : chunks <> []) by apply chunk_text_inhabited.
    split; [|split; [|split]].
    + split.
      * intros H. apply (f_equal (@List.length _)) in H.
        rewrite length_map, enumerate_from_length in H.
        destruct chunks; [congruence | discriminate].
      * intros [H _]. congruence.
    + simpl. rewrite map_map. simpl. apply enumerate_from_snd.
    + rewrite map_map. simpl. rewrite length_map, enumerate_from_length.
      rewrite <- (map_map fst (fun i => Some i)), enumerate_from_fst, map_map.
      apply map_ext. intros k. reflexivity.
    + exact Hrec.
Qed.

Section ServingIngestedCorpus.

Lemma py_index_In {A : Type} (xs : list A) (i : Z) (x : A) :
  py_index xs i = inr x -> In x xs.
Proof.
  unfold py_index. destruct (orb _ _); [discriminate|].
  destruct (nth_error xs _) eqn:E; [|discriminate].
  intros H. injection H as <-. now apply nth_error_In in E.
Qed.

(** Every hit of the loop of [retrieve] holds a record of the metadata
    sequence and that record's abstract. *)
Lemma hits_hold_records (records : list ChunkRecord) (l : list (Z * R))
    (hits : list Hit) :
  outcome (for_each (hit_of records) l) = inr hits ->
  Forall (fun h => In (hit_meta h) records /\
                   text h = get_or (abstract (hit_meta h)) "") hits.
Proof.
  revert hits. induction l as [|p l IH]; intros hits H.
  - simpl in H. injection H as <-. constructor.
  - simpl in H. unfold bind, ret in H.
    destruct (hit_of records p) as [t [e | h]] eqn:Eh; [discriminate|].
    destruct (for_each (hit_of records) l) as [t' [e | hs]] eqn:El; [discriminate|].
    simpl in H. injection H as <-.
    constructor; [|now apply IH].
    pose proof (hit_of_outcome records p) as Ho. rewrite Eh in Ho. simpl in Ho.
    destruct (py_index records (fst p)) eqn:Ep; [discriminate|].
    injection Ho as ->. simpl. split; [now apply py_index_In in Ep | reflexivity].
Qed.

Lemma retrieve_hits_hold_records (env : Env) (query : string) (top_k : Z)
    (hits : list Hit) :
  outcome (retrieve env query top_k) = inr hits ->
  Forall (fun h => In (hit_meta h) (meta env) /\
                   text h = get_or (abstract (hit_meta h)) "") hits.
Proof.
  unfold retrieve, embed, bind, emit, ret, lift. simpl.
  destruct (index_search env _ top_k) as [e | [D Ix]]; [discriminate|]. simpl.
  intros H. apply (hits_hold_records (meta env) (combine Ix D)).
  destruct (for_each _ _) as [t r]. exact H.
Qed.

End ServingIngestedCorpus.

(** X25.  Serving what ingestion wrote: when the metadata sequence is the
    one ingestion wrote for some files, the index has one row per
    embedded chunk text and keeps the FAISS contract, and there is at
    least one chunk, [retrieve] returns [top_k] hits for every query and
    positive [top_k]; and the text of every hit is the whole cleaned
    abstract of the row its chunk came from, not the chunk that was
    embedded. *)
Theorem retrieval_over_ingested_corpus :
  forall (env : Env) (files : list (string * list CsvRow)) (query : string) (top_k : Z),
    meta env = meta_json (all_chunks files) ->
    faiss_search_contract
      (List.length (embs (forward env) (texts (all_chunks files)))) (index_search env) ->
    all_chunks files <> [] ->
    (0 < top_k)%Z ->
    exists hits,
      retrieve env query top_k = ([EvEncode [query] false; EvSearch top_k], inr hits) /\
      List.length hits = Z.to_nat top_k /\
      Forall (fun h =>
                exists f row,
                  In f files /\ In row (snd f) /\
                  text h = clean_text (Abstract row) /\
                  title (hit_meta h) = Some (clean_text (Title row)))
             hits.
Proof.
  intros env files query top_k Hmeta Hc Hne Hk.
  rewrite index_rows_match_metadata, <- Hmeta in Hc.
  assert (Hlast : exists front last, meta env = (front ++ [last])%list).
  { destruct (exists_last (l := meta env)) as (front & last & E).
    - rewrite Hmeta. unfold meta_json. destruct (all_chunks files); [congruence | discriminate].
    - now exists front, last. }
  destruct Hlast as (front & last & Hfl).
  destruct (retrieve_under_contract env query top_k front last Hfl Hc Hk)
    as (hits & Hh & Hlen & _).
  exists hits. split; [now rewrite retrieve_pair, Hh|]. split; [exact Hlen|].
  pose proof (retrieve_hits_hold_records env query top_k hits Hh) as Hrec.
  eapply Forall_impl; [|exact Hrec].
  intros h [Hin Ht]. rewrite Hmeta in Hin. unfold meta_json in Hin.
  apply in_map_iff in Hin. destruct Hin as [c [Ec Hc']].
  destruct (all_chunks_origin files c Hc') as (f & row & Hf & Hrow & Hcr).
  destruct (row_chunks_records (fst f) row c Hcr) as (H1 & _ & H3 & _).
  exists f, row. rewrite Ht, <- Ec, H3, H1. repeat split; assumption.
Qed.

Lemma retrieval_over_ingested_corpus_witness :
  exists hits,
    retrieve ingested_env demo_query 5
    = ([EvEncode [demo_query] false; EvSearch 5], inr hits) /\
    List.length hits = 5%nat /\
    Forall (fun h =>
              exists f row,
                In f demo_files /\ In row (snd f) /\
                text h = clean_text (Abstract row) /\
                title (hit_meta h) = Some (clean_text (Title row)))
           hits.
Proof.
  apply (retrieval_over_ingested_corpus ingested_env demo_files demo_query 5).
  - reflexivity.
  - apply IndexFlatIP_contract.
  - discriminate.
  - reflexivity.
Defined.

(* ================================================================== *)
(** * Properties of the chat page *)
(* ================================================================== *)

Section ChatPageFacts.

Import ChatPage.

Lemma pop_snoc {A : Type} (l : list A) (x : A) : pop (l ++ [x]) = l.
Proof. unfold pop. apply removelast_last. Qed.

Lemma exchange_by_error (client : Client) (query : string) (ms : list Message) :
  exchange client query ms
  = match request_error client query with
    | Some e =>
        (ms ++ [{| role := "assistant"; content := "⚠️ Error: " ++ exn_text client e |}])%list
    | None =>
        match post_chat client query with
        | inr r => (pop ms ++ [{| role := "assistant";
                                  content := get_or (get_or (reply_body r) None) "" |}])%list
        | inl _ => ms
        end
    end.
Proof.
  unfold exchange, request_error.
  destruct (post_chat client query) as [e | r]; [reflexivity|].
  destruct (andb _ _); [|reflexivity].
  destruct (reply_body r); reflexivity.
Qed.

Lemma send_message_runs (client : Client) (st : ChatState) :
  strip (user_input st) <> "" -> loading st = false ->
  send_message client st
  = [ {| name := name st; email := email st;
         messages := (messages st
                      ++ [{| role := "user"; content := user_input st |};
                          {| role := "assistant"; content := PLACEHOLDER |}])%list;
         user_input := ""; loading := true |};
      {| name := name st; email := email st;
         messages := exchange client (user_input st)
                       (messages st
                        ++ [{| role := "user"; content := user_input st |};
                            {| role := "assistant"; content := PLACEHOLDER |}])%list;
         user_input := ""; loading := false |} ].
Proof.
  intros Hin Hl. unfold send_message. rewrite Hl.
  destruct (strip (user_input st)); [congruence|]. reflexivity.
Qed.

End ChatPageFacts.

(** X26.  A message that is sent and answered: for an input that is not
    blank, with no request in flight, and a reply with a success status
    and a JSON body, the page first shows the user's message and the
    placeholder with the input cleared and the spinner on, and then the
    user's message and the answer (the empty text if the body has no
    answer) in place of the placeholder, with the spinner off. *)
Theorem send_message_success :
  forall (client : ChatPage.Client) (st : ChatPage.ChatState)
         (r : ChatPage.Reply) (data : option string),
    strip (ChatPage.user_input st) <> "" ->
    ChatPage.loading st = false ->
    ChatPage.post_chat client (ChatPage.user_input st) = inr r ->
    (200 <= ChatPage.reply_status r <= 299)%Z ->
    ChatPage.reply_body r = Some data ->
    ChatPage.send_message client st
    = [ {| ChatPage.name := ChatPage.name st; ChatPage.email := ChatPage.email st;
           ChatPage.messages :=
             (ChatPage.messages st
              ++ [{| ChatPage.role := "user"; ChatPage.content := ChatPage.user_input st |};
                  {| ChatPage.role := "assistant";
                     ChatPage.content := ChatPage.PLACEHOLDER |}])%list;
           ChatPage.user_input := ""; ChatPage.loading := true |};
        {| ChatPage.name := ChatPage.name st; ChatPage.email := ChatPage.email st;
           ChatPage.messages :=
             (ChatPage.messages st
              ++ [{| ChatPage.role := "user"; ChatPage.content := ChatPage.user_input st |};
                  {| ChatPage.role := "assistant";
                     ChatPage.content := get_or data "" |}])%list;
           ChatPage.user_input := ""; ChatPage.loading := false |} ].
Proof.
  intros client st r data Hin Hl Hp Hs Hb.
  rewrite (send_message_runs client st Hin Hl). do 3 f_equal.
  unfold ChatPage.exchange. rewrite Hp, Hb.
  replace (andb _ _) with true
    by (symmetry; apply andb_true_iff; split; apply Z.leb_le; lia).
  change (ChatPage.messages st ++ [?a; ?b])%list
    with (ChatPage.messages st ++ [a] ++ [b])%list.
  rewrite app_assoc, pop_snoc, <- app_assoc. reflexivity.
Qed.

Lemma send_message_success_witness :
  map ChatPage.messages (ChatPage.send_message echo_client (fresh_state " any tips? "))
  = [ [ {| ChatPage.role := "user"; ChatPage.content := " any tips? " |};
        {| ChatPage.role := "assistant"; ChatPage.content := ChatPage.PLACEHOLDER |} ];
      [ {| ChatPage.role := "user"; ChatPage.content := " any tips? " |};
        {| ChatPage.role := "assistant"; ChatPage.content := "You asked:  any tips? " |} ] ].
Proof.
  rewrite (send_message_success echo_client (fresh_state " any tips? ")
             {| ChatPage.reply_status := 200;
                ChatPage.reply_body := Some (Some ("You asked: " ++ " any tips? ")) |}
             (Some ("You asked: " ++ " any tips? "))).
  - reflexivity.
  - discriminate.
  - reflexivity.
  - reflexivity.
  - simpl. lia.
  - reflexivity.
Defined.

(** X27.  A message that is sent and not answered: when the request does
    not complete, the status is outside 200..299 or the body is not
    JSON, the page ends with the user's message, the placeholder, which
    is not removed, and after it a message with the text of the
    exception; the spinner is off and the input stays cleared. *)
Theorem send_message_failure_keeps_placeholder :
  forall (client : ChatPage.Client) (st : ChatPage.ChatState) (e : exn),
    strip (ChatPage.user_input st) <> "" ->
    ChatPage.loading st = false ->
    request_error client (ChatPage.user_input st) = Some e ->
    ChatPage.send_message client st
    = [ {| ChatPage.name := ChatPage.name st; ChatPage.email := ChatPage.email st;
           ChatPage.messages :=
             (ChatPage.messages st
              ++ [{| ChatPage.role := "user"; ChatPage.content := ChatPage.user_input st |};
                  {| ChatPage.role := "assistant";
                     ChatPage.content := ChatPage.PLACEHOLDER |}])%list;
           ChatPage.user_input := ""; ChatPage.loading := true |};
        {| ChatPage.name := ChatPage.name st; ChatPage.email := ChatPage.email st;
           ChatPage.messages :=
             (ChatPage.messages st
              ++ [{| ChatPage.role := "user"; ChatPage.content := ChatPage.user_input st |};
                  {| ChatPage.role := "assistant";
                     ChatPage.content := ChatPage.PLACEHOLDER |};
                  {| ChatPage.role := "assistant";
                     ChatPage.content := "⚠️ Error: " ++ ChatPage.exn_text client e |}])%list;
           ChatPage.user_input := ""; ChatPage.loading := false |} ].
Proof.
  intros client st e Hin Hl He.
  rewrite (send_message_runs client st Hin Hl). do 3 f_equal.
  rewrite exchange_by_error, He, <- app_assoc. reflexivity.
Qed.

Lemma send_message_failure_keeps_placeholder_witness :
  map ChatPage.messages (ChatPage.send_message down_client (fresh_state "any tips?"))
  = [ [ {| ChatPage.role := "user"; ChatPage.content := "any tips?" |};
        {| ChatPage.role := "assistant"; ChatPage.content := ChatPage.PLACEHOLDER |} ];
      [ {| ChatPage.role := "user"; ChatPage.content := "any tips?" |};
        {| ChatPage.role := "assistant"; ChatPage.content := ChatPage.PLACEHOLDER |};
        {| ChatPage.role := "assistant";
           ChatPage.content := "⚠️ Error: All connection attempts failed" |} ] ].
Proof.
  rewrite (send_message_failure_keeps_placeholder down_client (fresh_state "any tips?")
             TransportError).
  - reflexivity.
  - discriminate.
  - reflexivity.
  - reflexivity.
Defined.

(** X28.  What [send_message] never does: it shows nothing and sends
    nothing exactly when the input is blank or a request is in flight;
    otherwise it shows two states, the first with the spinner on and the
    second with it off; and every state it shows keeps the name, the
    email and all earlier messages, and has the input cleared. *)
Theorem send_message_invariants :
  forall (client : ChatPage.Client) (st : ChatPage.ChatState),
    (ChatPage.send_message client st = []
     <-> strip (ChatPage.user_input st) = "" \/ ChatPage.loading st = true) /\
    (map ChatPage.loading (ChatPage.send_message client st) = []
     \/ map ChatPage.loading (ChatPage.send_message client st) = [true; false]) /\
    Forall (fun st' =>
              ChatPage.name st' = ChatPage.name st /\
              ChatPage.email st' = ChatPage.email st /\
              ChatPage.user_input st' = "" /\
              exists added,
                ChatPage.messages st' = (ChatPage.messages st ++ added)%list)
           (ChatPage.send_message client st).
Proof.
  intros client st.
  destruct (strip (ChatPage.user_input st)) as [|c s] eqn:Ein.
  - assert (E : ChatPage.send_message client st = [])
      by (unfold ChatPage.send_message; now rewrite Ein).
    rewrite E. repeat split; auto using Forall_nil.
  - destruct (ChatPage.loading st) eqn:El.
    + assert (E : ChatPage.send_message client st = []).
      { unfold ChatPage.send_message. rewrite Ein, El. reflexivity. }
      rewrite E. repeat split; auto using Forall_nil.
    + rewrite (send_message_runs client st) by (try rewrite Ein; congruence).
      split; [|split].
      * split; [discriminate | intros [H | H]; discriminate].
      * right. reflexivity.
      * constructor; [|constructor; [|constructor]]; simpl; repeat split.
        -- eexists. reflexivity.
        -- rewrite exchange_by_error.
           destruct (request_error client (ChatPage.user_input st)).
           ++ eexists. rewrite <- app_assoc. reflexivity.
           ++ destruct (ChatPage.post_chat client (ChatPage.user_input st)).
              ** eexists. reflexivity.
              ** exists [{| ChatPage.role := "user";
                            ChatPage.content := ChatPage.user_input st |};
                         {| ChatPage.role := "assistant";
                            ChatPage.content :=
                              get_or (get_or (ChatPage.reply_body r) None) "" |}].
                 change (ChatPage.messages st ++ [?a; ?b])%list
                   with (ChatPage.messages st ++ [a] ++ [b])%list.
                 rewrite app_assoc, pop_snoc, <- app_assoc. reflexivity.
Qed.

(* ================================================================== *)
(** * Chunks longer than the bound *)
(* ================================================================== *)

Section Unsplit.

Lemma slice_from_empty (start : Z) : slice_from start "" = "".
Proof.
  unfold slice_from. simpl. destruct (start <? 0)%Z; now destruct (Z.to_nat _).
Qed.

Lemma strip_space_led (t : string) :
  is_clean t = true -> strip (" " ++ t) = t.
Proof.
  unfold is_clean. intros H.
  apply andb_prop in H. destruct H as [Hl H].
  apply andb_prop in H. destruct H as [Ht _].
  change (strip (" " ++ t)) with (strip t). now apply strip_fixed.
Qed.

End Unsplit.

(** X13.  [max_len] does not bound the chunks: a cleaned text that is
    longer than [max_len] and has no sentence end followed by white
    space comes back as two chunks, the empty string and the whole
    text. *)
Theorem chunk_text_unsplit_text_exceeds_max_len :
  forall (text : string) (max_len overlap : Z),
    (0 <= max_len < py_len (clean_text text))%Z ->
    split_sentences (clean_text text) = [clean_text text] ->
    chunk_text text max_len overlap = [""; clean_text text] /\
    Exists (fun c => (max_len < py_len c)%Z) (chunk_text text max_len overlap).
Proof.
  intros text max_len overlap Hlen Hsp.
  assert (E : chunk_text text max_len overlap = [""; clean_text text]).
  { unfold chunk_text.
    destruct (py_len (clean_text text) <=? max_len)%Z eqn:E0;
      [apply Z.leb_le in E0; lia|].
    rewrite Hsp. cbn [chunk_loop py_len].
    destruct (0 + py_len (clean_text text) + 1 <=? max_len)%Z eqn:E1;
      [apply Z.leb_le in E1; lia|].
    rewrite slice_from_empty.
    change ("" ++ " " ++ clean_text text) with (" " ++ clean_text text).
    rewrite (strip_space_led (clean_text text) (clean_text_is_clean text)).
    change (strip "") with "".
    destruct (clean_text text) eqn:Ec; [simpl in Hlen; lia | reflexivity]. }
  split; [exact E|]. rewrite E.
  apply Exists_cons_tl. apply Exists_cons_hd. lia.
Qed.

Lemma chunk_text_unsplit_text_exceeds_max_len_witness :
  chunk_text "  melatonin;  weighted blankets;   white noise  " 12 3
  = [""; "melatonin; weighted blankets; white noise"].
Proof.
  refine (proj1 (chunk_text_unsplit_text_exceeds_max_len
                   "  melatonin;  weighted blankets;   white noise  " 12 3 _ _)).
  - split; [lia | reflexivity].
  - reflexivity.
Defined.
